(** * The bounded crawl engine of backend/app/services/scraper.py

    A shallow embedding of [ScrapingConfig], [RobotsTxtChecker] and
    [WebScraper].  Python objects become records, the instance attributes
    that the methods mutate are threaded explicitly, exceptions are values
    of [result], and the outside world (the HTTP network) is an oracle
    together with the log of the requests issued so far.  The pure parts
    of the services that read a crawl result, in qa_generator.py and
    converter.py, follow the vocabulary of the statements. *)

From Stdlib Require Import ZArith String Ascii List Bool Lia.
From stdpp Require Import base option list strings gmap sets.

Local Open Scope Z_scope.

(** ** Exceptions and results *)

Inductive Exn :=
  | ValueError (msg : string)
  | PermissionError (msg : string)
  | HTTPError (msg : string)
  | KeyError (msg : string)
  | ConnectionError (msg : string)
  | Exception (msg : string).

(** [str(e)] *)
Definition str (e : Exn) : string :=
  match e with
  | ValueError m | PermissionError m | HTTPError m | KeyError m
  | ConnectionError m | Exception m => m
  end.

Inductive result (A : Type) :=
  | Returns (a : A)
  | Raises (e : Exn).
Arguments Returns {A} a.
Arguments Raises {A} e.

(** ** A state monad with exceptions

    A method body is a function from the mutable state it touches to a
    result and the state it leaves behind.  A raised exception keeps the
    mutations made before it, as in Python. *)

Definition M (S A : Type) : Type := S → result A * S.

Definition ret {S A} (a : A) : M S A := λ s, (Returns a, s).
Definition raise {S A} (e : Exn) : M S A := λ s, (Raises e, s).
Definition bind {S A B} (m : M S A) (k : A → M S B) : M S B :=
  λ s, match m s with
       | (Returns a, s') => k a s'
       | (Raises e, s') => (Raises e, s')
       end.
Definition try_except {S A} (m : M S A) (handler : Exn → M S A) : M S A :=
  λ s, match m s with
       | (Returns a, s') => (Returns a, s')
       | (Raises e, s') => handler e s'
       end.
Definition gets {S A} (f : S → A) : M S A := λ s, (Returns (f s), s).
Definition modify {S} (f : S → S) : M S unit := λ s, (Returns tt, f s).
Definition lift {S A} (r : result A) : M S A := λ s, (r, s).

Declare Scope py_scope.
Delimit Scope py_scope with py.
Notation "'let!' x ':=' m 'in' k" := (bind m (λ x, k))
  (at level 10, x name, m at level 100, k at level 200) : py_scope.
Notation "'run!' m 'in' k" := (bind m (λ _, k))
  (at level 10, m at level 100, k at level 200) : py_scope.

(** ** Strings and slices

    A string is a sequence of characters with code points below 256. *)

(** [s.endswith(suffix)] *)
Definition endswith (s suffix : string) : bool :=
  String.prefix (String.rev suffix) (String.rev s).

(** [s.endswith((t1, t2, ...))] *)
Definition endswith_any (s : string) (suffixes : list string) : bool :=
  existsb (endswith s) suffixes.

(** [c.isspace()]: the characters that [str.strip] removes are the
    controls 9 to 13 and 28 to 31, the space, the next-line control 133
    and the no-break space 160. *)
Definition isspace (c : ascii) : bool :=
  let n := N_of_ascii c in
  ((9 <=? n) && (n <=? 13) || (28 <=? n) && (n <=? 32) || (n =? 133) || (n =? 160))%N.

Definition lstrip (s : string) : string :=
  (fix go (s : string) :=
     match s with
     | String a s' => if isspace a then go s' else s
     | EmptyString => EmptyString
     end) s.

(** [s.strip()] *)
Definition strip (s : string) : string :=
  String.rev (lstrip (String.rev (lstrip s))).

(** [l[:stop]]: a negative [stop] counts from the end of the list. *)
Definition slice_to {A} (l : list A) (stop : Z) : list A :=
  if 0 <=? stop then take (Z.to_nat stop) l
  else take (Z.to_nat (Z.of_nat (length l) + stop)) l.

(** ** Parsed HTML (the part of BeautifulSoup the scraper uses) *)

#[warnings="-register-all"]
Inductive Node :=
  | NavigableString (s : string)
  | Tag (name : string) (attrs : gmap string string) (contents : list Node).

(** The document object: its top-level nodes. *)
Definition BeautifulSoup := list Node.

(** A node followed by everything below it, in document order. *)
Fixpoint self_and_descendants (n : Node) : list Node :=
  match n with
  | NavigableString _ => [n]
  | Tag _ _ cs => n :: flat_map self_and_descendants cs
  end.

Definition descendants (soup : BeautifulSoup) : list Node :=
  flat_map self_and_descendants soup.

(** [node.text] *)
Fixpoint get_text (n : Node) : string :=
  match n with
  | NavigableString s => s
  | Tag _ _ cs => fold_right (λ c acc, get_text c +:+ acc) "" cs
  end.

Definition tag_name (n : Node) : option string :=
  match n with
  | NavigableString _ => None
  | Tag name _ _ => Some name
  end.

Definition tag_attr (n : Node) (key : string) : option string :=
  match n with
  | NavigableString _ => None
  | Tag _ attrs _ => attrs !! key
  end.

Definition has_name (names : list string) (n : Node) : bool :=
  match tag_name n with
  | Some name => bool_decide (name ∈ names)
  | None => false
  end.

(** [soup.find_all([name1, name2, ...])]: the matching tags in document
    order. *)
Definition find_all (soup : BeautifulSoup) (names : list string) : list Node :=
  List.filter (has_name names) (descendants soup).

(** [soup.find(name)] *)
Definition find (soup : BeautifulSoup) (name : string) : option Node :=
  head (find_all soup [name]).

(** The [href] values of [soup.find_all('a', href=True)], in document order. *)
Definition anchor_hrefs (soup : BeautifulSoup) : list string :=
  omap (λ n, tag_attr n "href") (find_all soup ["a"]).

(** ** PageRecord and CrawlResult *)

Record Heading := { level : Z; heading_text : string }.

Record Content := {
  title : string;
  headings : list Heading;
  paragraphs : list string;
  code_blocks : list string }.

Record Page := { url : string; content : Content }.

Record CrawlResult := {
  base_url : string;
  pages : list Page;
  error : option string }.

(** [int(heading.name[1])] for a heading tag [h1] .. [h4] *)
Definition heading_level (name : string) : Z :=
  match String.get 1 name with
  | Some c => Z.of_N (N_of_ascii c) - 48
  | None => 0
  end.

Definition non_empty (s : string) : bool := negb (String.eqb s "").

Definition _extract_content (soup : BeautifulSoup) : Content :=
  {| title := match find soup "title" with
              | Some title_tag => strip (get_text title_tag)
              | None => ""
              end;
     headings :=
       omap (λ h, name ← tag_name h;
                  Some {| level := heading_level name;
                          heading_text := strip (get_text h) |})
            (find_all soup ["h1"; "h2"; "h3"; "h4"]);
     paragraphs :=
       List.filter non_empty (map (λ p, strip (get_text p)) (find_all soup ["p"]));
     code_blocks :=
       List.filter non_empty (map (λ c, strip (get_text c)) (find_all soup ["code"])) |}.

(** ** The libraries the scraper calls

    [validators], [urllib.parse], [bs4] and [robotexclusionrulesparser] are
    not part of the repository; the development is parametric in them.
    [urlparse] and [urljoin] raise [ValueError] on some inputs, and a call
    into the robots parser may raise while leaving the parser object
    changed, so these return a [result]. *)

Record ParseResult := {
  scheme : string;
  netloc : string;
  path : string;
  query : string;
  fragment : string }.

Class Libraries := {
  (** [validators.url(s) is True] *)
  validators_url : string → bool;
  urlparse : string → result ParseResult;
  urljoin : string → string → result string;
  (** [BeautifulSoup(text, 'html.parser')] *)
  html_parser : string → BeautifulSoup;
  (** the state of a [RobotExclusionRulesParser] object *)
  Rules : Type;
  (** [RobotExclusionRulesParser()] *)
  new_rules : Rules;
  (** [p.parse(text)], an update in place *)
  parse : string → Rules → result unit * Rules;
  (** [p.is_allowed(user_agent, url)] *)
  is_allowed : Rules → string → string → result bool }.

(** ** The network *)

Record Response := { status_code : Z; text : string }.

Record Request := { req_url : string; req_timeout : Z }.

(** The requests issued so far, oldest first. *)
Definition World := list Request.

(** What [requests.get] does for a request, given the requests made before
    it: it returns a response or raises (connection error, timeout). *)
Definition Network := World → Request → result Response.

(** [response.raise_for_status()]: raises for a 4xx or 5xx status only. *)
Definition raise_for_status (r : Response) : result unit :=
  if (400 <=? status_code r) && (status_code r <? 600)
  then Raises (HTTPError "HTTP error status")
  else Returns tt.

(** [response.ok], which is also the truth value of a response. *)
Definition ok (r : Response) : bool :=
  match raise_for_status r with
  | Returns _ => true
  | Raises _ => false
  end.

(** The truth value of an [Optional[Response]]. *)
Definition truthy (r : option Response) : bool :=
  match r with
  | Some r => ok r
  | None => false
  end.

(** [r.text] for an [Optional[Response]] *)
Definition response_text (r : option Response) : result string :=
  match r with
  | Some r => Returns (text r)
  | None => Raises (Exception "'NoneType' object has no attribute 'text'")
  end.

(** ** ScrapingConfig *)

Record ScrapingConfig := {
  max_pages : Z;
  rate_limit : Z;
  respect_robots_txt : bool;
  scrape_multiple_pages : bool }.

Definition ScrapingConfig_default : ScrapingConfig :=
  {| max_pages := 100; rate_limit := 1;
     respect_robots_txt := true; scrape_multiple_pages := true |}.

Definition binary_extensions : list string := [".pdf"; ".zip"; ".png"; ".jpg"].

Section Scraper.
Context `{Libraries} (net : Network).

Local Open Scope py_scope.

(** [requests.get(url, timeout=t)] *)
Definition requests_get (url : string) (timeout : Z) : M World Response :=
  λ log, let rq := {| req_url := url; req_timeout := timeout |} in
         (net log rq, log ++ [rq]).

(** ** RobotsTxtChecker

    [__init__] creates one parser object and every cache entry is a
    reference to an object, so the checker carries the objects it can
    reach ([heap]) and the cache maps a domain to a location. *)

Definition loc := positive.

Record RobotsTxtChecker := {
  heap : gmap loc Rules;
  parser : loc;
  cache : gmap string loc }.

Definition RobotsTxtChecker_init : RobotsTxtChecker :=
  {| heap := {[ 1%positive := new_rules ]}; parser := 1%positive; cache := ∅ |}.

Definition on_world {S A} (m : M World A) : M (S * World) A :=
  λ '(c, w), let '(r, w') := m w in (r, (c, w')).

(** [self.parser.parse(text)] *)
Definition parser_parse (body : string) : M (RobotsTxtChecker * World) unit :=
  λ '(c, w),
    match heap c !! parser c with
    | Some rules =>
        let '(r, rules') := parse body rules in
        (r, ({| heap := <[parser c := rules']> (heap c);
                parser := parser c; cache := cache c |}, w))
    | None => (Raises (Exception "dangling reference"), (c, w))
    end.

(** [self.cache[domain] = self.parser] *)
Definition cache_store (domain : string) : M (RobotsTxtChecker * World) unit :=
  modify (λ '(c, w), ({| heap := heap c; parser := parser c;
                         cache := <[domain := parser c]> (cache c) |}, w)).

(** [self.cache[domain].is_allowed(user_agent, url)] *)
Definition cache_is_allowed (domain user_agent url : string)
  : M (RobotsTxtChecker * World) bool :=
  λ '(c, w),
    match cache c !! domain with
    | None => (Raises (KeyError domain), (c, w))
    | Some l =>
        match heap c !! l with
        | Some rules => (is_allowed rules user_agent url, (c, w))
        | None => (Raises (Exception "dangling reference"), (c, w))
        end
    end.

Definition can_fetch (url user_agent : string) : M (RobotsTxtChecker * World) bool :=
  try_except
    (let! p := lift (urlparse url) in
     let domain := netloc p in
     let! c := gets fst in
     run! (if bool_decide (domain ∉ dom (cache c)) then
             let! robots_url := lift (urljoin ("https://" +:+ domain) "/robots.txt") in
             let! response := on_world (requests_get robots_url 5) in
             run! parser_parse (text response) in
             cache_store domain
           else ret tt) in
     cache_is_allowed domain user_agent url)
    (λ _, ret true).

(** ** WebScraper *)

Record WebScraper := {
  config : ScrapingConfig;
  robots_checker : RobotsTxtChecker;
  visited_urls : gset string }.

(** [WebScraper(config)] *)
Definition WebScraper_init (cfg : option ScrapingConfig) : WebScraper :=
  {| config := default ScrapingConfig_default cfg;
     robots_checker := RobotsTxtChecker_init;
     visited_urls := ∅ |}.

(** [_fetch_url].  The decorators [sleep_and_retry] and
    [limits(calls=1, period=1)] only delay the call; time is not part of
    the state, so the body is the whole of the model. *)
Definition _fetch_url (url : string) : M World (option Response) :=
  try_except
    (let! response := requests_get url 10 in
     run! lift (raise_for_status response) in
     ret (Some response))
    (λ _, ret None).

Definition _is_valid_url (url : string) : bool := validators_url url.

(** The local variables of a running [scrape] that outlive an exception,
    next to the object and the world. *)
Record Frame := {
  self : WebScraper;
  results : CrawlResult;
  world : World }.

Definition in_world {A} (m : M World A) : M Frame A :=
  λ f, let '(r, w') := m (world f) in
       (r, {| self := self f; results := results f; world := w' |}).

(** [self.visited_urls.add(u)] *)
Definition visited_add (u : string) : M Frame unit :=
  modify (λ f, {| self := {| config := config (self f);
                             robots_checker := robots_checker (self f);
                             visited_urls := {[u]} ∪ visited_urls (self f) |};
                  results := results f; world := world f |}).

(** [results['pages'].append(p)] *)
Definition pages_append (p : Page) : M Frame unit :=
  modify (λ f, {| self := self f;
                  results := {| base_url := base_url (results f);
                                pages := pages (results f) ++ [p];
                                error := error (results f) |};
                  world := world f |}).

(** [results['error'] = msg] *)
Definition set_error (msg : string) : M Frame unit :=
  modify (λ f, {| self := self f;
                  results := {| base_url := base_url (results f);
                                pages := pages (results f);
                                error := Some msg |};
                  world := world f |}).

(** The loop of [_extract_links] over the [href]s still to be seen;
    [links] is the list built so far. *)
Fixpoint extract_links_loop (base_url base_domain : string)
    (hrefs : list string) (links : list string) : M Frame (list string) :=
  match hrefs with
  | [] => ret links
  | href :: rest =>
      let! full_url := lift (urljoin base_url href) in
      let! p := lift (urlparse full_url) in
      let! visited := gets (λ f, visited_urls (self f)) in
      if String.eqb (netloc p) base_domain
         && bool_decide (full_url ∉ visited)
         && negb (endswith_any full_url binary_extensions)
      then extract_links_loop base_url base_domain rest (links ++ [full_url])
      else extract_links_loop base_url base_domain rest links
  end.

Definition _extract_links (soup : BeautifulSoup) (base_url : string)
  : M Frame (list string) :=
  let! b := lift (urlparse base_url) in
  extract_links_loop base_url (netloc b) (anchor_hrefs soup) [].

(** The [for link in links_to_scrape] loop of [scrape]. *)
Fixpoint scrape_links (links_to_scrape : list string) : M Frame unit :=
  match links_to_scrape with
  | [] => ret tt
  | link :: rest =>
      let! s := gets self in
      if bool_decide (max_pages (config s) ≤ Z.of_nat (size (visited_urls s)))
      then ret tt
      else
        run! (if bool_decide (link ∉ visited_urls s) then
                let! response := in_world (_fetch_url link) in
                if truthy response then
                  let! body := lift (response_text response) in
                  let soup := html_parser body in
                  run! visited_add link in
                  pages_append {| url := link; content := _extract_content soup |}
                else ret tt
              else ret tt) in
        scrape_links rest
  end.

(** The [try] block of [scrape]. *)
Definition scrape_try (url : string) : M Frame unit :=
  let! main_response := in_world (_fetch_url url) in
  run! (if negb (truthy main_response)
        then raise (Exception ("Failed to fetch main URL: " +:+ url))
        else ret tt) in
  let! body := lift (response_text main_response) in
  let main_soup := html_parser body in
  run! visited_add url in
  run! pages_append {| url := url; content := _extract_content main_soup |} in
  let! s := gets self in
  if scrape_multiple_pages (config s) then
    let! links_to_scrape := _extract_links main_soup url in
    let links_to_scrape := slice_to links_to_scrape (max_pages (config s) - 1) in
    scrape_links links_to_scrape
  else ret tt.

Definition on_checker {A} (m : M (RobotsTxtChecker * World) A)
  : M (WebScraper * World) A :=
  λ '(s, w), let '(r, (c', w')) := m (robots_checker s, w) in
             (r, ({| config := config s; robots_checker := c';
                     visited_urls := visited_urls s |}, w')).

(** Runs the [try ... except Exception as e] statement of [scrape] on a
    fresh [results] and returns [results]. *)
Definition scrape_run (url : string) : M (WebScraper * World) CrawlResult :=
  λ '(s, w),
    let f0 := {| self := s;
                 results := {| base_url := url; pages := []; error := None |};
                 world := w |} in
    let '(_, f) := try_except (scrape_try url) (λ e, set_error (str e)) f0 in
    (Returns (results f), (self f, world f)).

Definition scrape (url : string) : M (WebScraper * World) CrawlResult :=
  run! (if negb (_is_valid_url url)
        then raise (ValueError ("Invalid URL: " +:+ url))
        else ret tt) in
  let! s := gets fst in
  let! disallowed := (if respect_robots_txt (config s)
                      then let! allowed := on_checker (can_fetch url "*") in
                           ret (negb allowed)
                      else ret false) in
  run! (if (disallowed : bool)
        then raise (PermissionError ("robots.txt disallows scraping: " +:+ url))
        else ret tt) in
  scrape_run url.

End Scraper.

(** * Vocabulary of the statements *)

Section Vocabulary.
Context `{Libraries} (net : Network).

Definition page_request (u : string) : Request :=
  {| req_url := u; req_timeout := 10 |}.

(** What [_fetch_url] hands back for an answer of the network. *)
Definition fetched (r : result Response) : option Response :=
  match r with
  | Returns resp => if ok resp then Some resp else None
  | Raises _ => None
  end.

(** What the link loop does to the frame: it leaves the configuration,
    the robots checker, [base_url] and [error] alone, and appends pages
    [extra], at most one per link, whose URLs are links that were not
    visited before and are pairwise distinct. *)
Record crawled (links : list string) (f f' : Frame) (extra : list Page) : Prop := {
  crawled_config : config (self f') = config (self f);
  crawled_checker : robots_checker (self f') = robots_checker (self f);
  crawled_visited : visited_urls (self f) ⊆ visited_urls (self f');
  crawled_base_url : base_url (results f') = base_url (results f);
  crawled_error : error (results f') = error (results f);
  crawled_pages : pages (results f') = pages (results f) ++ extra;
  crawled_length : (length extra ≤ length links)%nat;
  crawled_distinct : NoDup (map url extra);
  crawled_fresh : ∀ p, p ∈ extra → (url p ∉ visited_urls (self f)) ∧ (url p ∈ links) }.

(** The test [_extract_links] applies to a resolved URL. *)
Definition kept (visited : gset string) (base_domain full_url : string) : Prop :=
  (∃ p, urlparse full_url = Returns p ∧ netloc p = base_domain)
  ∧ (full_url ∉ visited)
  ∧ (∀ ext, ext ∈ binary_extensions → ∀ pre, full_url ≠ pre +:+ ext).

(** No call into [urllib.parse] made by [_extract_links] raises. *)
Definition links_resolvable (soup : BeautifulSoup) (base_url : string) : Prop :=
  (∃ b, urlparse base_url = Returns b)
  ∧ Forall (λ href, ∃ u p, urljoin base_url href = Returns u ∧ urlparse u = Returns p)
           (anchor_hrefs soup).

Definition page_of (u : string) (resp : Response) : Page :=
  {| url := u; content := _extract_content (html_parser (text resp)) |}.

Definition seed_failure (u : string) : string := "Failed to fetch main URL: " +:+ u.

Definition with_checker (s : WebScraper) (c : RobotsTxtChecker) : WebScraper :=
  {| config := config s; robots_checker := c; visited_urls := visited_urls s |}.

(** The seed URL passes the robots gate of [scrape]. *)
Definition robots_allows (u : string) (s : WebScraper) (w : World) : Prop :=
  respect_robots_txt (config s) = false
  ∨ ∃ st, can_fetch net u "*" (robots_checker s, w) = (Returns true, st).

(** The request log at the moment [scrape] asks for the seed page: the
    log that the robots gate leaves behind. *)
Definition seed_log (u : string) (s : WebScraper) (w : World) : World :=
  if respect_robots_txt (config s)
  then (can_fetch net u "*" (robots_checker s, w)).2.2
  else w.

(** The request that this [scrape] makes for the seed page fails:
    [requests.get] raises, or the status is one that [raise_for_status]
    rejects. *)
Definition seed_fetch_fails (u : string) (s : WebScraper) (w : World) : Prop :=
  match net (seed_log u s w) (page_request u) with
  | Raises _ => True
  | Returns resp => 400 ≤ status_code resp < 600
  end.

Definition robots_request (robots_url : string) : Request :=
  {| req_url := robots_url; req_timeout := 5 |}.

(** The lookup of a robots file fails: the request raises (network
    failure, timeout), or the parser raises on the body it is given. *)
Inductive lookup_fails (c : RobotsTxtChecker) (w : World) (rq : Request) : Prop :=
  | fetch_raises e :
      net w rq = Raises e → lookup_fails c w rq
  | parse_raises resp rules e rules' :
      net w rq = Returns resp →
      heap c !! parser c = Some rules →
      parse (text resp) rules = (Raises e, rules') →
      lookup_fails c w rq.

(** Every cache entry refers to the one parser object of the checker. *)
Definition cache_shares_parser (c : RobotsTxtChecker) : Prop :=
  ∀ domain l, cache c !! domain = Some l → l = parser c.

End Vocabulary.

(** * Further vocabulary: the shape of a crawl *)

Section CrawlShape.
Context `{Libraries}.

(** [link] is a link of the seed page: the resolution of one of its
    [href]s, on the seed's network location, and not ending in one of the
    binary extensions. *)
Definition seed_link (u : string) (soup : BeautifulSoup) (link : string) : Prop :=
  (∃ href, href ∈ anchor_hrefs soup ∧ urljoin u href = Returns link)
  ∧ (∃ b p, urlparse u = Returns b ∧ urlparse link = Returns p ∧ netloc p = netloc b)
  ∧ (∀ ext, ext ∈ binary_extensions → ∀ pre, link ≠ pre +:+ ext).

(** [links] are resolutions of [href]s of the page, in the order in which
    the [href]s occur on the page. *)
Definition in_page_order (u : string) (soup : BeautifulSoup) (links : list string) : Prop :=
  ∃ hrefs, hrefs `sublist_of` anchor_hrefs soup
           ∧ Forall2 (λ href link, urljoin u href = Returns link) hrefs links.

(** [s] has no white space at either end. *)
Definition stripped (s : string) : Prop :=
  (∀ c rest, s = String c rest → isspace c = false)
  ∧ (∀ c front, s = front +:+ String c "" → isspace c = false).

(** The requests a crawl may add to the log: at most one for a robots
    file, then requests for pages. *)
Definition crawl_requests (robots : list Request) (page_urls : list string)
  : list Request :=
  robots ++ map page_request page_urls.

End CrawlShape.

(** * The consumers of a crawl result

    backend/app/services/qa_generator.py and converter.py read the stored
    [CrawlResult].  Their pure parts are embedded here: the token chunking,
    the removal of duplicate questions, the cleaning of a model answer and
    the markdown rendering. *)

(** ** Strings, continued *)

Definition LF : string := String "010" EmptyString.

(** [s.split('\n')]: never empty. *)
Fixpoint split_lines (s : string) : list string :=
  match s with
  | EmptyString => [EmptyString]
  | String c s' =>
      if Ascii.eqb c "010" then EmptyString :: split_lines s'
      else match split_lines s' with
           | line :: lines => String c line :: lines
           | [] => [String c EmptyString]
           end
  end.

(** [sep.join(parts)] *)
Fixpoint join (sep : string) (parts : list string) : string :=
  match parts with
  | [] => EmptyString
  | [part] => part
  | part :: rest => part +:+ sep +:+ join sep rest
  end.

(** [s[n:]] for a string and [n >= 0] *)
Fixpoint string_drop (n : nat) (s : string) : string :=
  match n, s with
  | O, _ => s
  | S n', String _ s' => string_drop n' s'
  | S _, EmptyString => EmptyString
  end.

(** [c * n] for a one-character string: empty when [n <= 0]. *)
Definition repeat_char (c : ascii) (n : Z) : string :=
  string_of_list_ascii (repeat c (Z.to_nat n)).

(** The lower-case form of a character: the capital letters are 65 to 90
    and, among the accented ones, 192 to 222 without the sign 215. *)
Definition lower_char (c : ascii) : ascii :=
  let n := N_of_ascii c in
  if ((65 <=? n) && (n <=? 90) || (192 <=? n) && (n <=? 222) && negb (n =? 215))%N
  then ascii_of_N (n + 32) else c.

(** [s.lower()] *)
Fixpoint str_lower (s : string) : string :=
  match s with
  | EmptyString => EmptyString
  | String c s' => String (lower_char c) (str_lower s')
  end.

(** ** QAGenerator *)

Section QAGenerator.
(** [self.encoding] of tiktoken: a tokenizer with its decoder. *)
Context {Token : Type} (encode : string → list Token) (decode : list Token → string).

(** The [for token in tokens] loop of [_chunk_content], with its three
    local variables. *)
Fixpoint chunk_loop (chunk_size : Z) (tokens : list Token)
    (chunks : list string) (current_chunk : list Token) (current_length : Z)
  : list string * list Token :=
  match tokens with
  | [] => (chunks, current_chunk)
  | token :: rest =>
      if current_length + 1 <=? chunk_size
      then chunk_loop chunk_size rest chunks (current_chunk ++ [token]) (current_length + 1)
      else chunk_loop chunk_size rest (chunks ++ [decode current_chunk]) [token] 1
  end.

(** [_chunk_content], with [self.config.chunk_size] as an argument. *)
Definition _chunk_content (chunk_size : Z) (text : string) : list string :=
  if String.eqb text "" then []
  else
    let '(chunks, current_chunk) := chunk_loop chunk_size (encode text) [] [] 0 in
    match current_chunk with
    | [] => chunks
    | _ :: _ => chunks ++ [decode current_chunk]
    end.

End QAGenerator.

Section Duplicates.
(** A Q&A pair is a dictionary; [question qa] is its ['question'] entry,
    [None] when the pair is no dictionary or has no such key.  The pairs
    that reach the loop have passed [validate_qa_pair], which splits the
    question into words, so an entry that is present is a string. *)
Context {QA : Type} (question : QA → option string).

(** The loop of [generate_qa_pairs] that removes duplicate questions. *)
Fixpoint unique_loop (all_qa_pairs : list QA) (seen_questions : gset string)
    (unique_qa_pairs : list QA) : list QA :=
  match all_qa_pairs with
  | [] => unique_qa_pairs
  | qa_pair :: rest =>
      match question qa_pair with
      | Some q =>
          let question := str_lower q in
          if bool_decide (question ∉ seen_questions)
          then unique_loop rest ({[question]} ∪ seen_questions) (unique_qa_pairs ++ [qa_pair])
          else unique_loop rest seen_questions unique_qa_pairs
      | None => unique_loop rest seen_questions unique_qa_pairs
      end
  end.

Definition remove_duplicate_questions (all_qa_pairs : list QA) : list QA :=
  unique_loop all_qa_pairs ∅ [].

(** The lower-cased questions of a list of pairs. *)
Definition questions_of (qa_pairs : list QA) : list string :=
  omap (λ qa, str_lower <$> question qa) qa_pairs.

End Duplicates.

(** [line.strip().startswith('```')] *)
Definition is_fence (line : string) : bool := String.prefix "```" (strip line).

(** [_clean_json_response]; [lines[0]] and [lines[-1]] raise [IndexError],
    an [Exception] with the message below, on an empty list. *)
Definition _clean_json_response (content : string) : result string :=
  let lines := split_lines content in
  let cleaned :=
    if existsb is_fence lines then
      match head lines with
      | None => Raises (Exception "list index out of range")
      | Some first =>
          let lines := if is_fence first then drop 1 lines else lines in
          match last lines with
          | None => Raises (Exception "list index out of range")
          | Some final =>
              let lines := if is_fence final then take (length lines - 1) lines else lines in
              Returns (List.filter (λ line, negb (is_fence line)) lines)
          end
      end
    else Returns lines in
  match cleaned with
  | Raises e => Raises e
  | Returns lines =>
      let content := join LF lines in
      let content := if String.prefix "json" (strip content)
                     then strip (string_drop 4 content)
                     else content in
      Returns (strip content)
  end.

(** ** DocumentConverter *)

Record ConversionConfig := {
  include_code_blocks : bool;
  include_headings : bool;
  include_title : bool }.

Definition ConversionConfig_default : ConversionConfig :=
  {| include_code_blocks := true; include_headings := true; include_title := true |}.

(** The list [markdown_content] that [_create_markdown_content] builds. *)
Definition markdown_parts (cfg : ConversionConfig) (page_data : Page) : list string :=
  (if include_title cfg && non_empty (title (content page_data))
   then ["# " +:+ title (content page_data) +:+ LF] else [])
  ++ ["*Source: " +:+ url page_data +:+ "*" +:+ LF]
  ++ (if include_headings cfg
      then map (λ heading, LF +:+ repeat_char "#" (level heading) +:+ " "
                           +:+ heading_text heading +:+ LF)
               (headings (content page_data))
      else [])
  ++ map (λ paragraph, LF +:+ paragraph +:+ LF) (paragraphs (content page_data))
  ++ (if include_code_blocks cfg
      then map (λ code_block, LF +:+ "```" +:+ LF +:+ code_block +:+ LF +:+ "```" +:+ LF)
               (code_blocks (content page_data))
      else []).

Definition _create_markdown_content (cfg : ConversionConfig) (page_data : Page) : string :=
  join LF (markdown_parts cfg page_data).

Definition page_separator : string := LF +:+ "---" +:+ LF.

(** [create_markdown] on the pages of the scraped data. *)
Definition create_markdown (cfg : ConversionConfig) (scraped_data : CrawlResult) : string :=
  join LF (flat_map (λ page, [_create_markdown_content cfg page; page_separator])
                    (pages scraped_data)).

(** [sub] occurs in [s]. *)
Definition occurs_in (sub s : string) : Prop := ∃ before after, s = before +:+ sub +:+ after.

(** * A concrete instance

    A reduced executable model of the libraries, used to run the scraper
    on concrete pages.  It covers the URLs and documents of the examples
    below: [urlparse] follows [urllib.parse.urlsplit] (scheme, [//]
    authority, [?] query, [#] fragment, and the [ValueError] for an
    authority with an unmatched bracket); [urljoin] resolves absolute and
    root-relative references (any other reference is taken relative to
    the root); the HTML parser recovers the anchors written with a
    single-quoted [href]; a robots file is read as the list of
    [Disallow:] prefixes of one [User-agent: *] group. *)
Module PyModel.

Definition is_alpha (c : ascii) : bool :=
  let n := N_of_ascii c in
  (((65 <=? n) && (n <=? 90)) || ((97 <=? n) && (n <=? 122)))%N.

Definition is_scheme_char (c : ascii) : bool :=
  let n := N_of_ascii c in
  (is_alpha c || ((48 <=? n) && (n <=? 57)) || (n =? 43) || (n =? 45) || (n =? 46))%N.

Definition lower (c : ascii) : ascii :=
  let n := N_of_ascii c in
  if ((65 <=? n) && (n <=? 90))%N then ascii_of_N (n + 32) else c.

Fixpoint string_map (f : ascii → ascii) (s : string) : string :=
  match s with
  | EmptyString => EmptyString
  | String c s' => String (f c) (string_map f s')
  end.

Fixpoint string_forallb (f : ascii → bool) (s : string) : bool :=
  match s with
  | EmptyString => true
  | String c s' => f c && string_forallb f s'
  end.

Definition contains (c : ascii) (s : string) : bool :=
  negb (string_forallb (λ d, negb (Ascii.eqb c d)) s).

(** Splits [s] before the first character satisfying [stop]. *)
Fixpoint break (stop : ascii → bool) (s : string) : string * string :=
  match s with
  | EmptyString => (EmptyString, EmptyString)
  | String c s' =>
      if stop c then (EmptyString, s)
      else let '(a, b) := break stop s' in (String c a, b)
  end.

Definition tail (s : string) : string :=
  match s with
  | EmptyString => EmptyString
  | String _ s' => s'
  end.

(** [s.split(c, 1)] as a pair; the second part is empty when [c] is absent *)
Definition split_once (c : ascii) (s : string) : string * string :=
  let '(a, b) := break (Ascii.eqb c) s in (a, tail b).

Definition split_scheme (u : string) : string * string :=
  let '(pre, rest) := break (Ascii.eqb ":") u in
  match pre, rest with
  | String c0 _, String _ rest' =>
      if is_alpha c0 && string_forallb is_scheme_char pre
      then (string_map lower pre, rest')
      else (EmptyString, u)
  | _, _ => (EmptyString, u)
  end.

Definition urlparse (u : string) : result ParseResult :=
  let '(sch, rest) := split_scheme u in
  let '(loc, rest) :=
    if String.prefix "//" rest
    then break (λ c, Ascii.eqb c "/" || Ascii.eqb c "?" || Ascii.eqb c "#")
               (tail (tail rest))
    else (EmptyString, rest) in
  if xorb (contains "[" loc) (contains "]" loc)
  then Raises (ValueError "Invalid IPv6 URL")
  else
    let '(rest, frag) := split_once "#" rest in
    let '(pth, qry) := split_once "?" rest in
    Returns {| scheme := sch; netloc := loc; path := pth;
               query := qry; fragment := frag |}.

Definition urlunparse (p : ParseResult) : string :=
  (if String.eqb (scheme p) "" then "" else scheme p +:+ ":")
  +:+ (if String.eqb (netloc p) "" then "" else "//" +:+ netloc p)
  +:+ path p
  +:+ (if String.eqb (query p) "" then "" else "?" +:+ query p)
  +:+ (if String.eqb (fragment p) "" then "" else "#" +:+ fragment p).

Definition urljoin (base ref : string) : result string :=
  if String.eqb ref "" then Returns base
  else if String.eqb base "" then Returns ref
  else
    match urlparse base with
    | Raises e => Raises e
    | Returns b =>
        match urlparse ref with
        | Raises e => Raises e
        | Returns r =>
            if negb (String.eqb (scheme r) "") && negb (String.eqb (scheme r) (scheme b))
            then Returns ref
            else if negb (String.eqb (netloc r) "")
            then Returns (urlunparse {| scheme := scheme b; netloc := netloc r;
                                        path := path r; query := query r;
                                        fragment := fragment r |})
            else Returns (urlunparse {| scheme := scheme b; netloc := netloc b;
                                        path := if String.prefix "/" (path r)
                                                then path r
                                                else "/" +:+ path r;
                                        query := query r;
                                        fragment := fragment r |})
        end
    end.

Definition validators_url (u : string) : bool :=
  match urlparse u with
  | Returns p =>
      (String.eqb (scheme p) "http" || String.eqb (scheme p) "https")
      && negb (String.eqb (netloc p) "")
      && string_forallb (λ c, negb (Ascii.is_space c)) u
  | Raises _ => false
  end.

(** The anchors of a document, in document order. *)
Fixpoint html_parser (doc : string) : BeautifulSoup :=
  match doc with
  | EmptyString => []
  | String _ doc' =>
      (if String.prefix "<a href='" doc
       then let '(href, _) := break (Ascii.eqb "'")
                                    (String.substring 9 (String.length doc) doc) in
            [Tag "a" {[ "href" := href ]} []]
       else [])
      ++ html_parser doc'
  end.

Fixpoint lines (s : string) : list string :=
  match s with
  | EmptyString => [EmptyString]
  | String c s' =>
      match lines s' with
      | l :: ls => if Ascii.eqb c "010" then EmptyString :: l :: ls else String c l :: ls
      | [] => [String c EmptyString]
      end
  end.

(** The non-empty [Disallow:] prefixes of a robots file. *)
Definition disallowed_prefixes (body : string) : list string :=
  omap (λ l, if String.prefix "Disallow: " l
             then let v := String.substring 10 (String.length l) l in
                  if String.eqb v "" then None else Some v
             else None)
       (lines body).

Definition parse (body : string) (_ : list string) : result unit * list string :=
  (Returns tt, disallowed_prefixes body).

(** The rules are matched against the path of the URL, whatever its host. *)
Definition is_allowed (rules : list string) (user_agent u : string) : result bool :=
  match urlparse u with
  | Returns p => Returns (negb (existsb (λ pre, String.prefix pre (path p)) rules))
  | Raises e => Raises e
  end.

#[export] Instance libraries : Libraries :=
  Build_Libraries validators_url urlparse urljoin html_parser
                  (list string) [] parse is_allowed.

(** A network that answers by URL alone, and refuses the connection for a
    URL it does not know. *)
Definition table_net (table : list (string * result Response)) : Network :=
  λ _ rq,
    match List.find (λ e, String.eqb (fst e) (req_url rq)) table with
    | Some e => snd e
    | None => Raises (ConnectionError "connection refused")
    end.

Definition page (status : Z) (body : string) : result Response :=
  Returns {| status_code := status; text := body |}.

End PyModel.

(** * Concrete sites *)


#[export] Existing Instance PyModel.libraries.

Definition value_of (r : result CrawlResult) : CrawlResult :=
  match r with
  | Returns a => a
  | Raises _ => {| base_url := ""; pages := []; error := None |}
  end.

Definition seed : string := "https://example.com/".

Definition config_of (budget : Z) (robots multiple : bool) : ScrapingConfig :=
  {| max_pages := budget; rate_limit := 1;
     respect_robots_txt := robots; scrape_multiple_pages := multiple |}.

(** A site whose front page links to [/a] twice, to a page that is down,
    to another host and to an image. *)
Definition site : Network :=
  PyModel.table_net
    [ (seed, PyModel.page 200
         ("<a href='/a'></a><a href='/b'></a><a href='/a'></a><a href='/c'></a>"
          +:+ "<a href='https://other.example/x'></a><a href='/logo.png'></a>"));
      ("https://example.com/a", PyModel.page 200 "<a href='/deep'></a>");
      ("https://example.com/b", PyModel.page 503 "");
      ("https://example.com/c", PyModel.page 200 "");
      ("https://example.com/robots.txt", PyModel.page 200 "User-agent: *") ].

Definition run (net : Network) (cfg : ScrapingConfig) (u : string)
  : result CrawlResult * (WebScraper * World) :=
  scrape net u (WebScraper_init (Some cfg), []).

Definition init (cfg : ScrapingConfig) : WebScraper := WebScraper_init (Some cfg).

Definition empty_content : Content :=
  {| title := ""; headings := []; paragraphs := []; code_blocks := [] |}.


(** The front page of [site] is down for the first request that is made
    and up afterwards. *)
Definition flaky_site : Network :=
  λ w rq,
    match w with
    | [] => PyModel.page 503 ""
    | _ :: _ => site w rq
    end.

(** The front page answers 304. *)
Definition not_modified_site : Network :=
  PyModel.table_net [ (seed, PyModel.page 304 "") ].

Definition newline : string := String "010" EmptyString.

(** [a.example] allows everything, [b.example] nothing. *)
Definition two_hosts : Network :=
  PyModel.table_net
    [ ("https://a.example/robots.txt", PyModel.page 200 "User-agent: *");
      ("https://b.example/robots.txt",
       PyModel.page 200 ("User-agent: *" +:+ newline +:+ "Disallow: /")) ].

(** No host answers. *)
Definition offline : Network := PyModel.table_net [].

Definition frame0 : Frame :=
  {| self := WebScraper_init None;
     results := {| base_url := seed; pages := []; error := None |};
     world := [] |}.

Definition links_page : BeautifulSoup :=
  html_parser ("<a href='/guide'></a><a href='https://example.com/manual.pdf?download=1'></a>"
               +:+ "<a href='/logo.png'></a><a href='https://other.example/'></a>").

(** The answer of [site] for its front page. *)
Definition front_page : Response :=
  {| status_code := 200;
     text := "<a href='/a'></a><a href='/b'></a><a href='/a'></a><a href='/c'></a>"
             +:+ "<a href='https://other.example/x'></a><a href='/logo.png'></a>" |}.

(** A tokenizer for the runs: one token per character. *)
Definition char_encode (text : string) : list ascii := list_ascii_of_string text.

Definition char_decode (tokens : list ascii) : string := string_of_list_ascii tokens.

(** A page of the documentation site, as the scraper stores it. *)
Definition guide_page : Page :=
  {| url := "https://example.com/guide";
     content := {| title := "Guide";
                   headings := [{| level := 2; heading_text := "Install" |}];
                   paragraphs := ["Run the installer."];
                   code_blocks := ["pip install it"] |} |}.

Definition crawl_of (page_list : list Page) : CrawlResult :=
  {| base_url := seed; pages := page_list; error := None |}.

(** * Properties *)

Ltac splits := repeat match goal with |- _ ∧ _ => split end.

Ltac unfold_monad :=
  unfold bind, ret, raise, lift, gets, modify, try_except in *.

(** Runs both sides of an equation and compares the values. *)
Ltac run_it :=
  lazymatch goal with
  | |- ?l = ?r =>
      let l' := eval vm_compute in l in
      let r' := eval vm_compute in r in
      change (l' = r'); reflexivity
  end.


Section ScraperFacts.
Context `{Libraries} (net : Network).

Local Open Scope py_scope.

(** ** Strings *)

Lemma append_cons (a : ascii) (s t : string) : String a s +:+ t = String a (s +:+ t).
Proof. reflexivity. Qed.

Lemma append_assoc (s1 s2 s3 : string) : (s1 +:+ s2) +:+ s3 = s1 +:+ s2 +:+ s3.
Proof. induction s1 as [|a s1 IH]; [done|]. by rewrite !append_cons, IH. Qed.

Lemma append_empty_r (s : string) : s +:+ "" = s.
Proof. induction s as [|a s IH]; [done|]. by rewrite append_cons, IH. Qed.

Lemma rev_app_append (s1 s2 : string) : String.rev_app s1 s2 = String.rev s1 +:+ s2.
Proof.
  unfold String.rev. revert s2.
  induction s1 as [|a s1 IH]; intros s2; [done|].
  change (String.rev_app s1 (String a s2) = String.rev_app s1 (String a "") +:+ s2).
  rewrite IH, (IH (String a "")), append_assoc. done.
Qed.

Lemma rev_append (s1 s2 : string) :
  String.rev (s1 +:+ s2) = String.rev s2 +:+ String.rev s1.
Proof.
  induction s1 as [|a s1 IH].
  - change (String.rev s2 = String.rev s2 +:+ ""). by rewrite append_empty_r.
  - rewrite append_cons. unfold String.rev at 1 3.
    change (String.rev_app (s1 +:+ s2) (String a "")
            = String.rev s2 +:+ String.rev_app s1 (String a "")).
    rewrite !rev_app_append, IH, append_assoc. done.
Qed.

Lemma rev_involutive (s : string) : String.rev (String.rev s) = s.
Proof.
  induction s as [|a s IH]; [done|].
  unfold String.rev at 2.
  change (String.rev (String.rev_app s (String a "")) = String a s).
  rewrite rev_app_append, rev_append, IH. done.
Qed.

Lemma prefix_iff (p s : string) : String.prefix p s = true ↔ ∃ t, s = p +:+ t.
Proof.
  revert s. induction p as [|a p IH]; intros s.
  - split; [intros _; by exists s|]. by destruct s.
  - destruct s as [|b s]; cbn [String.prefix].
    { split; [done|]. by intros [t ?]. }
    destruct (ascii_dec a b) as [->|Hne].
    + rewrite IH. split; intros [t Ht]; exists t.
      * by rewrite append_cons, Ht.
      * rewrite append_cons in Ht. by injection Ht.
    + split; [done|]. intros [t Ht]. rewrite append_cons in Ht.
      injection Ht as ??. congruence.
Qed.

(** [endswith s suffix] holds exactly when [s] is some string followed by
    [suffix]. *)
Lemma endswith_iff (s suffix : string) :
  endswith s suffix = true ↔ ∃ pre, s = pre +:+ suffix.
Proof.
  unfold endswith. rewrite prefix_iff. split.
  - intros [t Ht]. exists (String.rev t).
    rewrite <- (rev_involutive s), Ht, rev_append, rev_involutive. done.
  - intros [pre ->]. exists (String.rev pre). apply rev_append.
Qed.

(** ** Fetching *)

Lemma _fetch_url_eq u w :
  _fetch_url net u w = (Returns (fetched (net w (page_request u))), w ++ [page_request u]).
Proof.
  unfold _fetch_url, requests_get, fetched, ok, page_request. unfold_monad.
  destruct (net w _) as [resp|e]; [|done].
  destruct (raise_for_status resp); done.
Qed.

Lemma truthy_fetched r : truthy (fetched r) = true → ∃ resp, fetched r = Some resp.
Proof.
  destruct r as [resp|e]; simpl; [|done].
  destruct (ok resp); simpl; [eauto|done].
Qed.

Lemma truthy_fetched_some r resp : fetched r = Some resp → truthy (Some resp) = true.
Proof.
  destruct r as [resp'|e]; simpl; [|done].
  destruct (ok resp') eqn:E; [|done]. by intros [= <-].
Qed.

Lemma slice_to_length {A} (l : list A) (n : Z) :
  0 ≤ n → Z.of_nat (length (slice_to l n)) ≤ n.
Proof.
  intros Hn. unfold slice_to.
  destruct (0 <=? n) eqn:E; [|lia].
  rewrite length_take. lia.
Qed.

Lemma crawled_nothing links f : crawled links f f [].
Proof.
  split; try done.
  - by rewrite app_nil_r.
  - simpl. lia.
  - apply NoDup_nil_2.
  - by intros p ?%elem_of_nil.
Qed.

(** A link that is skipped, or whose request fails, adds no page. *)
Lemma crawled_skip link rest f f1 f' extra :
  self f1 = self f → results f1 = results f →
  crawled rest f1 f' extra → crawled (link :: rest) f f' extra.
Proof.
  intros Hself Hres []. rewrite Hself, Hres in *. split; try done.
  - simpl. lia.
  - intros p Hp. destruct (crawled_fresh0 p Hp). split; [done|by right].
Qed.

(** The link loop never raises. *)
Lemma scrape_links_spec links f :
  ∃ f' extra, scrape_links net links f = (Returns tt, f') ∧ crawled links f f' extra.
Proof.
  revert f. induction links as [|link rest IH]; intros f.
  - exists f, []. split; [done|apply crawled_nothing].
  - simpl. unfold bind at 1. unfold gets at 1.
    case_bool_decide as Hbudget.
    { exists f, []. split; [done|apply crawled_nothing]. }
    unfold bind at 1.
    case_bool_decide as Hseen.
    + unfold bind at 1. unfold in_world at 1. rewrite _fetch_url_eq.
      destruct (truthy (fetched _)) eqn:Htruthy.
      * destruct (truthy_fetched _ Htruthy) as [resp Hresp]. rewrite Hresp.
        unfold_monad. simpl.
        match goal with |- context [scrape_links net rest ?f1] =>
          destruct (IH f1) as (f' & extra & Hrun & []) end.
        simpl in *.
        exists f', ({| url := link; content := _extract_content (html_parser (text resp)) |}
                    :: extra).
        split; [done|]. split; try done.
        -- etrans; [|done]. apply union_subseteq_r.
        -- by rewrite crawled_pages0, <- app_assoc.
        -- simpl. lia.
        -- simpl. constructor; [|done].
           intros (p & Hurl & Hp)%list_elem_of_fmap.
           destruct (crawled_fresh0 p Hp) as [Hnot _].
           apply Hnot. rewrite <- Hurl. apply elem_of_union_l. by apply elem_of_singleton.
        -- intros p [->|Hp]%elem_of_cons; simpl.
           { split; [done|by left]. }
           destruct (crawled_fresh0 p Hp) as [Hnot Hin]. split; [|by right].
           intros Hv. apply Hnot. by apply elem_of_union_r.
      * unfold_monad.
        match goal with |- context [scrape_links net rest ?f1] =>
          destruct (IH f1) as (f' & extra & Hrun & Hc) end.
        exists f', extra. split; [done|].
        eapply crawled_skip; [| |exact Hc]; reflexivity.
    + unfold_monad.
      destruct (IH f) as (f' & extra & Hrun & Hc).
      exists f', extra. split; [done|].
      eapply crawled_skip; [| |exact Hc]; reflexivity.
Qed.

(** ** Link extraction *)

Lemma endswith_any_false s exts :
  endswith_any s exts = false → ∀ ext, ext ∈ exts → endswith s ext = false.
Proof.
  unfold endswith_any. intros Hex ext Hin.
  destruct (endswith s ext) eqn:E; [|done].
  assert (existsb (endswith s) exts = true) as Ht; [|congruence].
  apply existsb_exists. exists ext. split; [by apply list_elem_of_In|done].
Qed.

Lemma extract_links_loop_frame base_url base_domain hrefs links f r f' :
  extract_links_loop base_url base_domain hrefs links f = (r, f') → f' = f.
Proof.
  revert links. induction hrefs as [|href rest IH]; intros links; simpl.
  - unfold_monad. by intros [= _ <-].
  - unfold_monad. destruct (urljoin base_url href) as [u|e]; [|by intros [= _ <-]].
    destruct (urlparse u) as [p|e]; [|by intros [= _ <-]].
    destruct (_ && _); apply IH.
Qed.

Lemma extract_links_loop_spec base_url base_domain hrefs links f out :
  extract_links_loop base_url base_domain hrefs links f = (Returns out, f) →
  ∃ resolved new,
    out = links ++ new
    ∧ Forall2 (λ href u, urljoin base_url href = Returns u) hrefs resolved
    ∧ new `sublist_of` resolved
    ∧ Forall (kept (visited_urls (self f)) base_domain) new.
Proof.
  revert links. induction hrefs as [|href rest IH]; intros links; simpl.
  - unfold_monad. intros [= <-]. exists [], []. rewrite app_nil_r.
    splits; by constructor.
  - unfold_monad. destruct (urljoin base_url href) as [u|e] eqn:Hjoin; [|done].
    destruct (urlparse u) as [p|e] eqn:Hparse; [|done].
    destruct (_ && _) eqn:Htest; intros Hrun.
    + destruct (IH _ Hrun) as (resolved & new & -> & Hres & Hsub & Hkept).
      exists (u :: resolved), (u :: new). rewrite <- app_assoc. simpl.
      splits; [done|by constructor|by constructor|].
      constructor; [|done].
      apply andb_prop in Htest as [[Hdom Hvis]%andb_prop Hext].
      unfold kept. splits.
      * eexists. split; [exact Hparse|]. by apply String.eqb_eq.
      * by apply bool_decide_eq_true_1 in Hvis.
      * intros ext Hin pre ->. apply negb_true_iff in Hext.
        pose proof (endswith_any_false (pre +:+ ext) binary_extensions Hext ext Hin) as Hno.
        assert (endswith (pre +:+ ext) ext = true) as Hyes; [|congruence].
        apply endswith_iff. by exists pre.
    + destruct (IH _ Hrun) as (resolved & new & -> & Hres & Hsub & Hkept).
      exists (u :: resolved), new.
      splits; [done|by constructor|by constructor|done].
Qed.

Lemma extract_links_loop_returns base_url base_domain hrefs links f :
  Forall (λ href, ∃ u p, urljoin base_url href = Returns u ∧ urlparse u = Returns p) hrefs →
  ∃ out, extract_links_loop base_url base_domain hrefs links f = (Returns out, f).
Proof.
  intros Hall. revert links.
  induction Hall as [|href rest (u & p & Hjoin & Hparse) _ IH]; intros links; simpl.
  - unfold_monad. eauto.
  - unfold_monad. rewrite Hjoin, Hparse. destruct (_ && _); apply IH.
Qed.

Lemma _extract_links_frame soup base_url f r f' :
  _extract_links soup base_url f = (r, f') → f' = f.
Proof.
  unfold _extract_links. unfold bind at 1. unfold lift at 1.
  destruct (urlparse base_url) as [b|e]; [|by intros [= _ <-]].
  apply extract_links_loop_frame.
Qed.

Lemma _extract_links_returns soup base_url f :
  links_resolvable soup base_url →
  ∃ out, _extract_links soup base_url f = (Returns out, f).
Proof.
  intros [[b Hb] Hall]. unfold _extract_links. unfold bind at 1. unfold lift at 1.
  rewrite Hb. by apply extract_links_loop_returns.
Qed.

(** ** The body of [scrape] *)

(** [scrape_run] always returns.  When the seed is unavailable the result
    is empty with the failure message and the scraper is unchanged;
    otherwise the seed page comes first, followed by pages with fresh,
    distinct URLs, at most [max_pages - 1] of them. *)
Lemma scrape_run_spec u s w :
  ∃ r s' w',
    scrape_run net u (s, w) = (Returns r, (s', w'))
    ∧ base_url r = u
    ∧ config s' = config s
    ∧ robots_checker s' = robots_checker s
    ∧ visited_urls s ⊆ visited_urls s'
    ∧ match fetched (net w (page_request u)) with
      | None =>
          pages r = [] ∧ error r = Some (seed_failure u)
          ∧ s' = s ∧ w' = w ++ [page_request u]
      | Some resp =>
          ∃ extra,
            pages r = page_of u resp :: extra
            ∧ u ∈ visited_urls s'
            ∧ NoDup (map url (pages r))
            ∧ (0 < max_pages (config s) →
               Z.of_nat (length extra) ≤ max_pages (config s) - 1)
            ∧ (scrape_multiple_pages (config s) = false → extra = [])
            ∧ (scrape_multiple_pages (config s) = false
               ∨ links_resolvable (html_parser (text resp)) u →
               error r = None)
      end.
Proof.
  unfold scrape_run, scrape_try.
  unfold try_except at 1. unfold bind at 1. unfold in_world at 1.
  rewrite _fetch_url_eq. simpl.
  destruct (fetched _) as [resp|] eqn:Hfetch.
  - assert (truthy (Some resp) = true) as ->.
    { apply truthy_fetched_some in Hfetch. done. }
    unfold_monad. simpl.
    destruct (scrape_multiple_pages (config s)) eqn:Hmulti.
    + match goal with |- context [_extract_links ?soup u ?f1] =>
        destruct (_extract_links soup u f1) as [[links|e] f2] eqn:Hlinks;
        pose proof (_extract_links_frame _ _ _ _ _ Hlinks) as ->;
        set (fr := f1) in * end.
      * destruct (scrape_links_spec (slice_to links (max_pages (config s) - 1)) fr)
          as (f' & extra & Hrun & []).
        rewrite Hrun. subst fr. simpl in *.
        assert (u ∈ visited_urls (self f')) as Hseed.
        { apply crawled_visited0, elem_of_union_l. by apply elem_of_singleton. }
        eexists _, _, _. split; [reflexivity|].
        splits; [done|done|done| |].
        { etrans; [|done]. apply union_subseteq_r. }
        exists extra. splits.
        -- by rewrite crawled_pages0.
        -- done.
        -- rewrite crawled_pages0. simpl. constructor; [|done].
           intros (p & Hurl & Hp)%list_elem_of_fmap.
           destruct (crawled_fresh0 p Hp) as [Hnot _].
           apply Hnot. rewrite <- Hurl. apply elem_of_union_l. by apply elem_of_singleton.
        -- intros Hpos.
           pose proof (slice_to_length links (max_pages (config s) - 1)). lia.
        -- done.
        -- by rewrite crawled_error0.
      * subst fr. simpl.
        eexists _, _, _. split; [reflexivity|]. simpl.
        splits; [done|done|done|set_solver|].
        exists []. splits; [done|set_solver| |simpl; lia|done|].
        -- simpl. constructor; [by intros ?%elem_of_nil|apply NoDup_nil_2].
        -- intros [?|Hres]; [done|].
           destruct (_extract_links_returns _ _
             {| self := {| config := config s; robots_checker := robots_checker s;
                           visited_urls := {[u]} ∪ visited_urls s |};
                results := {| base_url := u; pages := [page_of u resp];
                              error := None |};
                world := w ++ [page_request u] |} Hres) as [out Hout].
           unfold page_of in Hout. rewrite Hout in Hlinks. done.
    + simpl. eexists _, _, _. split; [reflexivity|]. simpl.
      splits; [done|done|done|set_solver|].
      exists []. splits; [done|set_solver| |simpl; lia|done|done].
      simpl. constructor; [by intros ?%elem_of_nil|apply NoDup_nil_2].
  - unfold_monad. simpl.
    eexists _, _, _. split; [reflexivity|]. simpl.
    splits; done.
Qed.

(** ** [scrape] as a whole *)

Lemma can_fetch_returns u ua c w :
  ∃ b c' w', can_fetch net u ua (c, w) = (Returns b, (c', w')).
Proof.
  unfold can_fetch, try_except.
  match goal with |- context [match ?m with _ => _ end] =>
    destruct m as [[b|e] [c' w']] end; unfold ret; eauto.
Qed.

Lemma scrape_invalid u s w :
  _is_valid_url u = false →
  scrape net u (s, w) = (Raises (ValueError ("Invalid URL: " +:+ u)), (s, w)).
Proof. intros Hv. unfold scrape. unfold_monad. by rewrite Hv. Qed.

Lemma scrape_no_robots u s w :
  _is_valid_url u = true → respect_robots_txt (config s) = false →
  scrape net u (s, w) = scrape_run net u (s, w).
Proof. intros Hv Hr. unfold scrape. unfold_monad. rewrite Hv. simpl. by rewrite Hr. Qed.

Lemma scrape_robots u s w b c' w' :
  _is_valid_url u = true → respect_robots_txt (config s) = true →
  can_fetch net u "*" (robots_checker s, w) = (Returns b, (c', w')) →
  scrape net u (s, w) =
    if b then scrape_run net u (with_checker s c', w')
    else (Raises (PermissionError ("robots.txt disallows scraping: " +:+ u)),
          (with_checker s c', w')).
Proof.
  intros Hv Hr Hc. unfold scrape, on_checker. unfold_monad.
  rewrite Hv. simpl. rewrite Hr, Hc. by destruct b.
Qed.

(** A returned result was produced by [scrape_run] on a scraper with the
    same configuration and the same visited set. *)
Lemma scrape_returns_inv u s w r s' w' :
  scrape net u (s, w) = (Returns r, (s', w')) →
  _is_valid_url u = true
  ∧ ∃ s0 w0, scrape_run net u (s0, w0) = (Returns r, (s', w'))
             ∧ config s0 = config s ∧ visited_urls s0 = visited_urls s.
Proof.
  intros Hrun. destruct (_is_valid_url u) eqn:Hv.
  2:{ rewrite scrape_invalid in Hrun by done. done. }
  split; [done|].
  destruct (respect_robots_txt (config s)) eqn:Hr.
  - destruct (can_fetch_returns u "*" (robots_checker s) w) as (b & c' & w1 & Hc).
    rewrite (scrape_robots _ _ _ _ _ _ Hv Hr Hc) in Hrun.
    destruct b; [|done]. by exists (with_checker s c'), w1.
  - rewrite scrape_no_robots in Hrun by done. by exists s, w.
Qed.

Lemma scrape_visited_mono u s w :
  visited_urls s ⊆ visited_urls (scrape net u (s, w)).2.1.
Proof.
  destruct (_is_valid_url u) eqn:Hv.
  2:{ by rewrite scrape_invalid. }
  assert (∀ s0 w0, visited_urls s0 = visited_urls s →
            visited_urls s ⊆ visited_urls (scrape_run net u (s0, w0)).2.1) as Hsub.
  { intros s0 w0 Heq.
    destruct (scrape_run_spec u s0 w0) as (r & s' & w' & -> & _ & _ & _ & Hvis & _).
    simpl. by rewrite <- Heq. }
  destruct (respect_robots_txt (config s)) eqn:Hr.
  - destruct (can_fetch_returns u "*" (robots_checker s) w) as (b & c' & w1 & Hc).
    rewrite (scrape_robots _ _ _ _ _ _ Hv Hr Hc).
    destruct b; [by apply Hsub|done].
  - rewrite scrape_no_robots by done. by apply Hsub.
Qed.

Lemma seed_fetch_fails_fetched u s w :
  seed_fetch_fails net u s w → fetched (net (seed_log net u s w) (page_request u)) = None.
Proof.
  unfold seed_fetch_fails, fetched, ok, raise_for_status.
  destruct (net _ _) as [resp|e]; [|done]. intros Hf.
  destruct (400 <=? status_code resp) eqn:E1; destruct (status_code resp <? 600) eqn:E2;
    simpl; try done; lia.
Qed.

(** Past the URL check and the robots gate, [scrape] is [scrape_run] at
    the log the gate left, on a scraper with the same configuration and
    visited set. *)
Lemma scrape_past_gate u s w :
  _is_valid_url u = true → robots_allows net u s w →
  ∃ s0, scrape net u (s, w) = scrape_run net u (s0, seed_log net u s w)
        ∧ config s0 = config s ∧ visited_urls s0 = visited_urls s.
Proof.
  intros Hv Hallow. unfold seed_log.
  destruct (respect_robots_txt (config s)) eqn:Hr.
  - destruct Hallow as [?|[[c' w1] Hc]]; [congruence|].
    rewrite (scrape_robots _ _ _ _ _ _ Hv Hr Hc), Hc. by exists (with_checker s c').
  - rewrite scrape_no_robots by done. by exists s.
Qed.

(** ** The crawl invariants *)

(** C1. With a positive [max_pages], the [pages] list of a result returned
    by [scrape] has at most [max_pages] entries, whatever the scraper has
    visited before and however many links the seed page carries. *)
Theorem pages_within_budget u s w r s' w' :
  0 < max_pages (config s) →
  scrape net u (s, w) = (Returns r, (s', w')) →
  Z.of_nat (length (pages r)) ≤ max_pages (config s).
Proof.
  intros Hpos (_ & s0 & w0 & Hrun & Hcfg & _)%scrape_returns_inv.
  destruct (scrape_run_spec u s0 w0) as (r0 & s1 & w1 & Hrun' & _ & _ & _ & _ & Hcases).
  rewrite Hrun in Hrun'. injection Hrun' as <- <- <-.
  rewrite Hcfg in Hcases. destruct (fetched _) as [resp|].
  - destruct Hcases as (extra & -> & _ & _ & Hlen & _).
    specialize (Hlen Hpos). cbn [length]. lia.
  - destruct Hcases as (-> & _). cbn [length]. lia.
Qed.

(** C2. No two entries of the [pages] list of a result returned by
    [scrape] carry the same [url], also when the seed page lists a link
    twice and whatever the scraper has visited before. *)
Theorem pages_urls_distinct u s w r s' w' :
  scrape net u (s, w) = (Returns r, (s', w')) →
  NoDup (map url (pages r)).
Proof.
  intros (_ & s0 & w0 & Hrun & _)%scrape_returns_inv.
  destruct (scrape_run_spec u s0 w0) as (r0 & s1 & w1 & Hrun' & _ & _ & _ & _ & Hcases).
  rewrite Hrun in Hrun'. injection Hrun' as <- <- <-.
  destruct (fetched _) as [resp|].
  - by destruct Hcases as (extra & _ & _ & Hnd & _).
  - destruct Hcases as (-> & _). apply NoDup_nil_2.
Qed.


(** C4, amended.  For a valid seed URL that passes the robots gate, when
    the request that [scrape] makes for it fails (the transport raises,
    times out, or the status is 4xx or 5xx), [scrape] returns, without
    raising, a result with no page and a non-empty [error].  The request
    is made once, and the visited set stays as it was. *)
Theorem scrape_seed_unavailable u s w :
  _is_valid_url u = true →
  robots_allows net u s w →
  seed_fetch_fails net u s w →
  ∃ r s', scrape net u (s, w) = (Returns r, (s', seed_log net u s w ++ [page_request u]))
          ∧ pages r = []
          ∧ (∃ msg, error r = Some msg ∧ msg ≠ "")
          ∧ visited_urls s' = visited_urls s.
Proof.
  intros Hv Hallow Hfail%seed_fetch_fails_fetched.
  destruct (scrape_past_gate u s w Hv Hallow) as (s0 & -> & _ & Hvis).
  destruct (scrape_run_spec u s0 (seed_log net u s w))
    as (r & s' & w' & -> & _ & _ & _ & _ & Hcases).
  rewrite Hfail in Hcases. destruct Hcases as (Hp & He & -> & ->).
  exists r, s0. splits; [done|done| |done].
  exists (seed_failure u). split; [done|].
  unfold seed_failure. intros Heq. cbv in Heq. discriminate.
Qed.

(** C5.  For a string that the URL validator rejects, [scrape] raises
    [ValueError]; the scraper and the request log are left as they were,
    so no page and no robots.txt was requested, and there is no result. *)
Theorem scrape_rejects_malformed_url u s w :
  _is_valid_url u = false →
  ∃ msg, scrape net u (s, w) = (Raises (ValueError msg), (s, w)).
Proof. intros Hv. eexists. by apply scrape_invalid. Qed.

(** C8, amended.  The visited set belongs to the [WebScraper] instance: it
    is empty when the instance is constructed and [scrape] never resets
    it, so a later [scrape] on the same instance starts from everything
    the earlier ones visited. *)
Theorem visited_set_per_instance cfg u s w :
  visited_urls (WebScraper_init cfg) = ∅
  ∧ visited_urls s ⊆ visited_urls (scrape net u (s, w)).2.1.
Proof. split; [done|apply scrape_visited_mono]. Qed.

(** C9, amended.  What [_extract_links] returns is, in the document order
    of the anchors, a selection of the [href]s resolved against the base
    URL; each returned URL has the network location of the base URL, is
    not in the visited set, and as a string does not end in [.pdf],
    [.zip], [.png] or [.jpg]. *)
Theorem extract_links_sound soup base f links f' :
  _extract_links soup base f = (Returns links, f') →
  ∃ b resolved,
    urlparse base = Returns b
    ∧ Forall2 (λ href u, urljoin base href = Returns u) (anchor_hrefs soup) resolved
    ∧ links `sublist_of` resolved
    ∧ Forall (kept (visited_urls (self f)) (netloc b)) links.
Proof.
  intros Hrun. pose proof (_extract_links_frame _ _ _ _ _ Hrun) as ->.
  unfold _extract_links in Hrun. unfold bind at 1 in Hrun. unfold lift at 1 in Hrun.
  destruct (urlparse base) as [b|e] eqn:Hb; [|done].
  apply extract_links_loop_spec in Hrun as (resolved & new & -> & Hres & Hsub & Hkept).
  by exists b, resolved.
Qed.

(** ** The robots cache *)

(** On a cache miss [can_fetch] requests the robots file of the domain. *)
Lemma can_fetch_miss_requests u ua c w p robots_url :
  urlparse u = Returns p →
  netloc p ∉ dom (cache c) →
  urljoin ("https://" +:+ netloc p) "/robots.txt" = Returns robots_url →
  ∃ b c', can_fetch net u ua (c, w) = (Returns b, (c', w ++ [robots_request robots_url])).
Proof.
  intros Hp Hmiss Hjoin. unfold can_fetch, try_except.
  unfold bind at 1. unfold lift at 1. rewrite Hp.
  unfold bind at 1. unfold gets at 1. cbn [fst].
  rewrite bool_decide_eq_true_2 by done.
  unfold bind at 1. unfold bind at 1. unfold lift at 1. rewrite Hjoin.
  unfold bind at 1. unfold on_world, requests_get. fold (robots_request robots_url).
  destruct (net w _) as [resp|e]; [|unfold ret; eauto].
  unfold bind at 1. unfold parser_parse.
  destruct (heap c !! parser c) as [rules|]; [|unfold ret; eauto].
  destruct (parse (text resp) rules) as [[[]|e] rules']; [|unfold ret; eauto].
  unfold cache_store, modify, cache_is_allowed. cbn [cache heap].
  rewrite !lookup_insert_eq.
  destruct (is_allowed rules' ua u) as [b|e]; unfold ret; eauto.
Qed.

(** On a cache hit no request is made. *)
Lemma can_fetch_hit_no_request u ua c w p :
  urlparse u = Returns p →
  netloc p ∈ dom (cache c) →
  ∃ b, can_fetch net u ua (c, w) = (Returns b, (c, w)).
Proof.
  intros Hp Hhit. unfold can_fetch, try_except.
  unfold bind at 1. unfold lift at 1. rewrite Hp.
  unfold bind at 1. unfold gets at 1. cbn [fst].
  rewrite bool_decide_eq_false_2 by (intros Hn; by apply Hn).
  unfold bind at 1. unfold ret at 1. unfold cache_is_allowed.
  destruct (cache c !! netloc p) as [l|]; [|unfold ret; eauto].
  destruct (heap c !! l) as [rules|]; [|unfold ret; eauto].
  destruct (is_allowed rules ua u) as [b|e]; unfold ret; eauto.
Qed.

Lemma cache_shares_parser_init : cache_shares_parser RobotsTxtChecker_init.
Proof. intros domain l. unfold RobotsTxtChecker_init. cbn [cache]. by rewrite lookup_empty. Qed.

Lemma can_fetch_shares_parser u ua c w r c' w' :
  cache_shares_parser c →
  can_fetch net u ua (c, w) = (r, (c', w')) →
  cache_shares_parser c' ∧ parser c' = parser c.
Proof.
  intros Hinv. unfold can_fetch, try_except.
  unfold bind at 1. unfold lift at 1.
  destruct (urlparse u) as [p|e]; [|unfold ret; by intros [= _ <- _]].
  unfold bind at 1. unfold gets at 1. cbn [fst].
  case_bool_decide as Hmiss.
  - unfold bind at 1. unfold bind at 1. unfold lift at 1.
    destruct (urljoin _ _) as [robots_url|e]; [|unfold ret; by intros [= _ <- _]].
    unfold bind at 1. unfold on_world, requests_get.
    destruct (net w _) as [resp|e]; [|unfold ret; by intros [= _ <- _]].
    unfold bind at 1. unfold parser_parse.
    destruct (heap c !! parser c) as [rules|]; [|unfold ret; by intros [= _ <- _]].
    destruct (parse (text resp) rules) as [[[]|e] rules'].
    2:{ unfold ret. intros [= _ <- _]. done. }
    unfold cache_store, modify, cache_is_allowed. cbn [cache heap].
    rewrite lookup_insert_eq.
    assert (cache_shares_parser
              {| heap := <[parser c:=rules']> (heap c); parser := parser c;
                 cache := <[netloc p:=parser c]> (cache c) |}) as Hinv'.
    { intros domain l. cbn [cache parser].
      rewrite lookup_insert. case_decide; [by intros [= <-]|apply Hinv]. }
    rewrite lookup_insert_eq.
    destruct (is_allowed rules' ua u) as [b|e]; unfold ret; by intros [= _ <- _].
  - unfold bind at 1. unfold ret at 1. unfold cache_is_allowed.
    destruct (cache c !! netloc p) as [l|]; [|unfold ret; by intros [= _ <- _]].
    destruct (heap c !! l) as [rules|]; [|unfold ret; by intros [= _ <- _]].
    destruct (is_allowed rules ua u) as [b|e]; unfold ret; by intros [= _ <- _].
Qed.

(** C7, amended.  When the robots lookup for a domain fails, [can_fetch]
    returns [True]; nothing is cached for the domain, so the next
    [can_fetch] for a URL of that domain through the same checker requests
    the robots file again. *)
Theorem can_fetch_fail_open u ua c w p robots_url :
  urlparse u = Returns p →
  netloc p ∉ dom (cache c) →
  urljoin ("https://" +:+ netloc p) "/robots.txt" = Returns robots_url →
  lookup_fails net c w (robots_request robots_url) →
  ∃ c', can_fetch net u ua (c, w) = (Returns true, (c', w ++ [robots_request robots_url]))
        ∧ cache c' = cache c
        ∧ ∀ u2 p2 ua2 w2,
            urlparse u2 = Returns p2 → netloc p2 = netloc p →
            ∃ b c'', can_fetch net u2 ua2 (c', w2)
                     = (Returns b, (c'', w2 ++ [robots_request robots_url])).
Proof.
  intros Hp Hmiss Hjoin Hfail.
  assert (∃ c', can_fetch net u ua (c, w)
                = (Returns true, (c', w ++ [robots_request robots_url]))
                ∧ cache c' = cache c) as (c' & Hrun & Hcache).
  { unfold can_fetch, try_except.
    unfold bind at 1. unfold lift at 1. rewrite Hp.
    unfold bind at 1. unfold gets at 1. cbn [fst].
    rewrite bool_decide_eq_true_2 by done.
    unfold bind at 1. unfold bind at 1. unfold lift at 1. rewrite Hjoin.
    unfold bind at 1. unfold on_world, requests_get. fold (robots_request robots_url).
    destruct Hfail as [e Hnet|resp rules e rules' Hnet Hheap Hparse]; rewrite Hnet.
    - unfold ret. by exists c.
    - unfold bind at 1. unfold parser_parse. rewrite Hheap, Hparse.
      unfold ret. eexists. split; [reflexivity|done]. }
  exists c'. splits; [done|done|].
  intros u2 p2 ua2 w2 Hp2 Hdom.
  apply can_fetch_miss_requests with (p := p2); [done| |].
  - by rewrite Hdom, Hcache.
  - by rewrite Hdom.
Qed.

End ScraperFacts.

(** * Further properties of the crawl engine *)

#[local] Set Warnings "-clear-no-such-hyp".

Section ScraperExtras.
Context `{Libraries} (net : Network).

Local Open Scope py_scope.

(** The link loop requests a selection of the links, in order, and the
    visited set grows by exactly the URLs of the pages it appends. *)
Lemma scrape_links_trace links f :
  ∃ f' extra reqs,
    scrape_links net links f = (Returns tt, f')
    ∧ pages (results f') = pages (results f) ++ extra
    ∧ world f' = world f ++ map page_request reqs
    ∧ reqs `sublist_of` links
    ∧ map url extra `sublist_of` reqs
    ∧ visited_urls (self f') = visited_urls (self f) ∪ list_to_set (map url extra).
Proof.
  revert f. induction links as [|link rest IH]; intros f.
  - exists f, [], []. simpl. rewrite !app_nil_r. splits; try done.
    set_solver.
  - simpl. unfold bind at 1. unfold gets at 1.
    case_bool_decide as Hbudget.
    { exists f, [], []. simpl. rewrite !app_nil_r. splits; try done.
      - apply sublist_nil_l.
      - set_solver. }
    unfold bind at 1.
    case_bool_decide as Hseen.
    + unfold bind at 1. unfold in_world at 1. rewrite _fetch_url_eq.
      destruct (truthy (fetched _)) eqn:Htruthy.
      * destruct (truthy_fetched _ Htruthy) as [resp Hresp]. rewrite Hresp.
        unfold_monad. simpl.
        match goal with |- context [scrape_links net rest ?f1] =>
          destruct (IH f1) as (f' & extra & reqs & Hrun & Hpages & Hworld & Hsub & Hsub' & Hvis) end.
        simpl in *.
        exists f', ({| url := link; content := _extract_content (html_parser (text resp)) |}
                    :: extra), (link :: reqs).
        rewrite Hrun. splits; try done.
        -- by rewrite Hpages, <- app_assoc.
        -- by rewrite Hworld, <- app_assoc.
        -- by constructor.
        -- simpl. by constructor.
        -- rewrite Hvis. set_solver.
      * unfold_monad.
        match goal with |- context [scrape_links net rest ?f1] =>
          destruct (IH f1) as (f' & extra & reqs & Hrun & Hpages & Hworld & Hsub & Hsub' & Hvis) end.
        simpl in *. exists f', extra, (link :: reqs). rewrite Hrun.
        splits; try done.
        -- by rewrite Hworld, <- app_assoc.
        -- by constructor.
        -- by apply sublist_cons.
    + unfold_monad.
      destruct (IH f) as (f' & extra & reqs & Hrun & Hpages & Hworld & Hsub & Hsub' & Hvis).
      exists f', extra, reqs. rewrite Hrun. splits; try done.
      by apply sublist_cons.
Qed.

Lemma slice_to_sublist {A} (l : list A) (n : Z) : slice_to l n `sublist_of` l.
Proof. unfold slice_to. destruct (0 <=? n); apply sublist_take. Qed.

(** Every link that [_extract_links] returns is a link of the page. *)
Lemma _extract_links_seed_links soup u f links f' :
  _extract_links soup u f = (Returns links, f') →
  Forall (seed_link u soup) links.
Proof.
  intros Hrun. pose proof (_extract_links_frame _ _ _ _ _ Hrun) as ->.
  unfold _extract_links in Hrun. unfold bind at 1 in Hrun. unfold lift at 1 in Hrun.
  destruct (urlparse u) as [b|e] eqn:Hb; [|done].
  apply extract_links_loop_spec in Hrun as (resolved & new & -> & Hres & Hsub & Hkept).
  simpl. apply Forall_forall. intros link Hin.
  rewrite Forall_forall in Hkept.
  destruct (Hkept link Hin) as ((p & Hp & Hdom) & _ & Hext).
  unfold seed_link. splits; [|by exists b, p|done].
  assert (link ∈ resolved) as Hin' by (by eapply elem_of_sublist).
  apply list_elem_of_lookup in Hin' as [i Hi].
  destruct (Forall2_lookup_r _ _ _ _ _ Hres Hi) as (href & Hhref & Hjoin).
  exists href. split; [|done]. apply list_elem_of_lookup. by exists i.
Qed.

Lemma Forall2_sublist_r {A B} (R : A → B → Prop) l k k' :
  Forall2 R l k → k' `sublist_of` k → ∃ l', l' `sublist_of` l ∧ Forall2 R l' k'.
Proof.
  intros Hall. revert k'. induction Hall as [|x y l k Hxy Hall IH]; intros k' Hsub.
  - apply sublist_nil_r in Hsub as ->. exists []. by split.
  - inversion Hsub as [|? k1 k2 Hs|? k1 k2 Hs]; subst.
    + destruct (IH _ Hs) as (l' & ? & ?). exists (x :: l').
      split; [by apply sublist_skip|by constructor].
    + destruct (IH _ Hs) as (l' & ? & ?). exists l'.
      split; [by apply sublist_cons|done].
Qed.

Lemma in_page_order_nil u soup : in_page_order u soup [].
Proof. exists []. split; [apply sublist_nil_l|constructor]. Qed.

Lemma in_page_order_sublist u soup links links' :
  links' `sublist_of` links → in_page_order u soup links → in_page_order u soup links'.
Proof.
  intros Hsub (hrefs & Hhrefs & Hall).
  destruct (Forall2_sublist_r _ _ _ _ Hall Hsub) as (hrefs' & Hsub' & Hall').
  exists hrefs'. split; [|done]. by etrans.
Qed.

(** The links that [_extract_links] returns come in the order of the page. *)
Lemma _extract_links_page_order soup u f links f' :
  _extract_links soup u f = (Returns links, f') → in_page_order u soup links.
Proof.
  intros Hrun. pose proof (_extract_links_frame _ _ _ _ _ Hrun) as ->.
  unfold _extract_links in Hrun. unfold bind at 1 in Hrun. unfold lift at 1 in Hrun.
  destruct (urlparse u) as [b|e] eqn:Hb; [|done].
  apply extract_links_loop_spec in Hrun as (resolved & new & -> & Hres & Hsub & _).
  simpl. destruct (Forall2_sublist_r _ _ _ _ Hres Hsub) as (hrefs & Hhrefs & Hall).
  by exists hrefs.
Qed.

(** The run of [scrape_run] on a seed that is fetched: the result, the
    requests made and the visited set. *)
Lemma scrape_run_trace u s w resp :
  fetched (net w (page_request u)) = Some resp →
  ∃ r s' w' rest links reqs,
    scrape_run net u (s, w) = (Returns r, (s', w'))
    ∧ pages r = page_of u resp :: rest
    ∧ w' = w ++ map page_request (u :: reqs)
    ∧ visited_urls s' = visited_urls s ∪ list_to_set (map url (pages r))
    ∧ Forall (seed_link u (html_parser (text resp))) links
    ∧ reqs `sublist_of` slice_to links (max_pages (config s) - 1)
    ∧ map url rest `sublist_of` reqs
    ∧ (scrape_multiple_pages (config s) = false → links = [])
    ∧ in_page_order u (html_parser (text resp)) links.
Proof.
  intros Hfetch. unfold scrape_run, scrape_try.
  unfold try_except at 1. unfold bind at 1. unfold in_world at 1.
  rewrite _fetch_url_eq. simpl. rewrite Hfetch.
  assert (truthy (Some resp) = true) as ->.
  { by apply truthy_fetched_some in Hfetch. }
  unfold_monad. simpl.
  destruct (scrape_multiple_pages (config s)) eqn:Hmulti.
  - match goal with |- context [_extract_links ?soup u ?f1] =>
      destruct (_extract_links soup u f1) as [[links|e] f2] eqn:Hlinks;
      pose proof (_extract_links_frame _ _ _ _ _ Hlinks) as ->;
      set (fr := f1) in * end.
    + destruct (scrape_links_spec net (slice_to links (max_pages (config s) - 1)) fr)
        as (f' & extra & Hrun & []).
      destruct (scrape_links_trace (slice_to links (max_pages (config s) - 1)) fr)
        as (f'' & extra' & reqs & Hrun' & Hpages & Hworld & Hsub & Hsub' & Hvis).
      rewrite Hrun in Hrun'. injection Hrun' as <-.
      rewrite crawled_pages0 in Hpages. apply app_inv_head in Hpages as <-.
      rewrite Hrun. subst fr. simpl in *.
      exists (results f'), (self f'), (world f'), extra, links, reqs.
      splits; try done.
      * by rewrite Hworld, <- app_assoc.
      * rewrite Hvis, crawled_pages0. set_solver.
      * by apply _extract_links_seed_links in Hlinks.
      * by apply _extract_links_page_order in Hlinks.
    + subst fr. simpl.
      eexists _, _, _, [], [], []. split; [reflexivity|]. simpl.
      splits; try done.
      * set_solver.
      * unfold slice_to. destruct (0 <=? _); by rewrite take_nil.
      * apply in_page_order_nil.
  - simpl. eexists _, _, _, [], [], []. split; [reflexivity|]. simpl.
    splits; try done.
    + set_solver.
    + unfold slice_to. destruct (0 <=? _); by rewrite take_nil.
    + apply in_page_order_nil.
Qed.


(** The run of [scrape] on a valid seed that passes the robots gate and
    is fetched. *)
Lemma scrape_trace u s w resp :
  _is_valid_url u = true →
  robots_allows net u s w →
  fetched (net (seed_log net u s w) (page_request u)) = Some resp →
  ∃ r s' rest links reqs,
    scrape net u (s, w)
      = (Returns r, (s', seed_log net u s w ++ map page_request (u :: reqs)))
    ∧ pages r = page_of u resp :: rest
    ∧ Forall (seed_link u (html_parser (text resp))) links
    ∧ in_page_order u (html_parser (text resp)) links
    ∧ reqs `sublist_of` slice_to links (max_pages (config s) - 1)
    ∧ map url rest `sublist_of` reqs.
Proof.
  intros Hv Hallow Hfetch.
  destruct (scrape_past_gate net u s w Hv Hallow) as (s0 & -> & Hcfg & _).
  destruct (scrape_run_trace u s0 _ resp Hfetch)
    as (r & s' & w' & rest & links & reqs & Hrun & Hpages & -> & _
        & Hlinks & Hsub & Hrest & _ & Horder).
  rewrite Hcfg in Hsub. by exists r, s', rest, links, reqs.
Qed.

(** ** The robots checker *)

(** What a call of [can_fetch] can do: it returns, keeps the parser
    reference and every cache entry's domain, makes at most one request,
    for a robots file, and answers [False] only on the word of a cached
    parser. *)
Lemma can_fetch_inv u ua c w :
  ∃ b c' w',
    can_fetch net u ua (c, w) = (Returns b, (c', w'))
    ∧ parser c' = parser c
    ∧ dom (cache c) ⊆ dom (cache c')
    ∧ (w' = w ∨ ∃ robots_url, w' = w ++ [robots_request robots_url])
    ∧ (b = false →
       ∃ p l rules, urlparse u = Returns p
                    ∧ cache c' !! netloc p = Some l
                    ∧ heap c' !! l = Some rules
                    ∧ is_allowed rules ua u = Returns false).
Proof.
  unfold can_fetch, try_except.
  unfold bind at 1. unfold lift at 1.
  destruct (urlparse u) as [p|e] eqn:Hp.
  2:{ unfold ret. exists true, c, w. splits; try done. by left. }
  unfold bind at 1. unfold gets at 1. cbn [fst].
  case_bool_decide as Hmiss.
  - unfold bind at 1. unfold bind at 1. unfold lift at 1.
    destruct (urljoin _ _) as [robots_url|e].
    2:{ unfold ret. exists true, c, w. splits; try done. by left. }
    unfold bind at 1. unfold on_world, requests_get. fold (robots_request robots_url).
    destruct (net w _) as [resp|e].
    2:{ unfold ret. exists true, c, (w ++ [robots_request robots_url]).
        splits; try done. right. by exists robots_url. }
    unfold bind at 1. unfold parser_parse.
    destruct (heap c !! parser c) as [rules|].
    2:{ unfold ret. exists true, c, (w ++ [robots_request robots_url]).
        splits; try done. right. by exists robots_url. }
    destruct (parse (text resp) rules) as [[[]|e] rules'].
    2:{ unfold ret. eexists true, _, _. split; [reflexivity|]. cbn [parser cache].
        splits; try done. right. by exists robots_url. }
    unfold cache_store, modify, cache_is_allowed. cbn [cache heap].
    rewrite !lookup_insert_eq.
    destruct (is_allowed rules' ua u) as [b|e] eqn:Hallowed; unfold ret.
    + eexists b, _, _. split; [reflexivity|]. cbn [parser cache heap].
      splits; try done.
      * rewrite dom_insert_L. apply union_subseteq_r.
      * right. by exists robots_url.
      * intros ->. exists p, (parser c), rules'.
        by rewrite !lookup_insert_eq.
    + eexists true, _, _. split; [reflexivity|]. cbn [parser cache heap].
      splits; try done.
      * rewrite dom_insert_L. apply union_subseteq_r.
      * right. by exists robots_url.
  - unfold bind at 1. unfold ret at 1. unfold cache_is_allowed.
    destruct (cache c !! netloc p) as [l|] eqn:Hl.
    2:{ unfold ret. exists true, c, w. splits; try done. by left. }
    destruct (heap c !! l) as [rules|] eqn:Hrules.
    2:{ unfold ret. exists true, c, w. splits; try done. by left. }
    destruct (is_allowed rules ua u) as [b|e] eqn:Hallowed; unfold ret.
    + exists b, c, w. splits; try done; [by left|].
      intros ->. by exists p, l, rules.
    + exists true, c, w. splits; try done. by left.
Qed.

(** ** Modes of a crawl *)




(** The requests of [scrape_run]: the seed and then, within the budget,
    links of the seed page. *)
Lemma scrape_run_requests u s w out s' w' :
  0 < max_pages (config s) →
  scrape_run net u (s, w) = (out, (s', w')) →
  ∃ page_urls, w' = w ++ map page_request page_urls
               ∧ Z.of_nat (length page_urls) ≤ max_pages (config s).
Proof.
  intros Hpos Hrun.
  destruct (fetched (net w (page_request u))) as [resp|] eqn:Hfetch.
  - destruct (scrape_run_trace u s w resp Hfetch)
      as (r & s1 & w1 & rest & links & reqs & Hrun' & _ & Hworld & _ & _ & Hsub & _).
    rewrite Hrun in Hrun'. injection Hrun' as -> <- <-.
    exists (u :: reqs). split; [done|].
    apply sublist_length in Hsub.
    pose proof (slice_to_length links (max_pages (config s) - 1)).
    cbn [length]. lia.
  - destruct (scrape_run_spec net u s w) as (r & s1 & w1 & Hrun' & _ & _ & _ & _ & Hcases).
    rewrite Hrun in Hrun'. injection Hrun' as -> <- <-.
    rewrite Hfetch in Hcases. destruct Hcases as (_ & _ & _ & ->).
    exists [u]. split; [done|]. cbn [length]. lia.
Qed.

(** X4.  Whatever its outcome, a [scrape] with a positive budget adds to
    the request log at most one request for a robots file, with a timeout
    of 5, followed by at most [max_pages] requests for pages. *)
Theorem request_budget u s w out s' w' :
  0 < max_pages (config s) →
  scrape net u (s, w) = (out, (s', w')) →
  ∃ robots page_urls,
    w' = w ++ crawl_requests robots page_urls
    ∧ (length robots ≤ 1)%nat
    ∧ Forall (λ rq, req_timeout rq = 5) robots
    ∧ Z.of_nat (length page_urls) ≤ max_pages (config s).
Proof.
  intros Hpos Hrun. unfold crawl_requests.
  destruct (_is_valid_url u) eqn:Hv.
  2:{ rewrite scrape_invalid in Hrun by done. injection Hrun as <- <- <-.
      exists [], []. simpl. rewrite app_nil_r. splits; try done; [lia|lia]. }
  destruct (respect_robots_txt (config s)) eqn:Hr.
  - destruct (can_fetch_inv u "*" (robots_checker s) w)
      as (b & c1 & w1 & Hc & _ & _ & Hw & _).
    rewrite (scrape_robots net _ _ _ _ _ _ Hv Hr Hc) in Hrun.
    assert (∃ robots, w1 = w ++ robots ∧ (length robots ≤ 1)%nat
                      ∧ Forall (λ rq, req_timeout rq = 5) robots)
      as (robots & -> & Hlen & Hall).
    { destruct Hw as [->|[robots_url ->]].
      - exists []. rewrite app_nil_r. splits; try done. simpl. lia.
      - exists [robots_request robots_url]. splits; try done. by repeat constructor. }
    destruct b.
    + apply scrape_run_requests in Hrun as (page_urls & -> & Hbudget); [|done].
      exists robots, page_urls. by rewrite <- app_assoc.
    + injection Hrun as <- <- <-. exists robots, []. simpl. rewrite app_nil_r.
      splits; try done. lia.
  - rewrite scrape_no_robots in Hrun by done.
    apply scrape_run_requests in Hrun as (page_urls & -> & Hbudget); [|done].
    exists [], page_urls. simpl. splits; try done. lia.
Qed.


(** X6.  After a [scrape] that returns, the visited set has grown by
    exactly the URLs of the pages in the result: a link whose request
    failed is not marked as visited. *)
Theorem visited_is_pages u s w r s' w' :
  scrape net u (s, w) = (Returns r, (s', w')) →
  visited_urls s' = visited_urls s ∪ list_to_set (map url (pages r)).
Proof.
  intros (_ & s0 & w0 & Hrun & _ & Hvis0)%(scrape_returns_inv net).
  rewrite <- Hvis0.
  destruct (fetched (net w0 (page_request u))) as [resp|] eqn:Hfetch.
  - destruct (scrape_run_trace u s0 w0 resp Hfetch)
      as (r' & s1 & w1 & rest & links & reqs & Hrun' & _ & _ & Hvis & _).
    rewrite Hrun in Hrun'. by injection Hrun' as <- <- <-.
  - destruct (scrape_run_spec net u s0 w0) as (r' & s1 & w1 & Hrun' & _ & _ & _ & _ & Hcases).
    rewrite Hrun in Hrun'. injection Hrun' as <- <- <-.
    rewrite Hfetch in Hcases. destruct Hcases as (-> & _ & -> & _).
    simpl. set_solver.
Qed.

(** X7.  Every page request of a crawl is for the seed or for a link of
    the seed page, and the links are requested in the order of the page;
    the pages of the result are among the requested URLs, in the order of
    the requests.  Links found on the other pages are never requested. *)
Theorem requests_are_seed_links u s w :
  _is_valid_url u = true →
  robots_allows net u s w →
  ∃ r s' reqs,
    scrape net u (s, w)
      = (Returns r, (s', seed_log net u s w ++ map page_request (u :: reqs)))
    ∧ map url (pages r) `sublist_of` u :: reqs
    ∧ match fetched (net (seed_log net u s w) (page_request u)) with
      | Some resp =>
          in_page_order u (html_parser (text resp)) reqs
          ∧ Forall (seed_link u (html_parser (text resp))) reqs
      | None => reqs = []
      end.
Proof.
  intros Hv Hallow.
  destruct (fetched _) as [resp|] eqn:Hfetch.
  - destruct (scrape_trace u s w resp Hv Hallow Hfetch)
      as (r & s' & rest & links & reqs & Hrun & Hpages & Hlinks & Horder & Hsub & Hrest).
    assert (reqs `sublist_of` links) as Hsub'.
    { etrans; [exact Hsub|apply slice_to_sublist]. }
    exists r, s', reqs. splits; [done| | |].
    + rewrite Hpages. cbn [map url page_of]. by apply sublist_skip.
    + by eapply in_page_order_sublist.
    + rewrite Forall_forall in Hlinks. apply Forall_forall. intros l Hl.
      apply Hlinks. by eapply elem_of_sublist.
  - destruct (scrape_past_gate net u s w Hv Hallow) as (s0 & -> & _).
    destruct (scrape_run_spec net u s0 (seed_log net u s w))
      as (r & s' & w' & Hrun & _ & _ & _ & _ & Hcases).
    rewrite Hfetch in Hcases. destruct Hcases as (Hpages & _ & _ & ->).
    exists r, s', []. rewrite Hrun, Hpages. splits; [done| |done].
    apply sublist_nil_l.
Qed.

(** ** The robots cache, continued *)

(** X8.  Once the robots file of a domain has been fetched and parsed, the
    domain is cached: a later [can_fetch] for any URL of that domain makes
    no request and leaves the checker as it is. *)
Theorem robots_cached_after_lookup u ua c w p robots_url resp rules rules' :
  urlparse u = Returns p →
  netloc p ∉ dom (cache c) →
  urljoin ("https://" +:+ netloc p) "/robots.txt" = Returns robots_url →
  net w (robots_request robots_url) = Returns resp →
  heap c !! parser c = Some rules →
  parse (text resp) rules = (Returns tt, rules') →
  ∃ b c', can_fetch net u ua (c, w) = (Returns b, (c', w ++ [robots_request robots_url]))
          ∧ netloc p ∈ dom (cache c')
          ∧ ∀ u2 p2 ua2 w2,
              urlparse u2 = Returns p2 → netloc p2 = netloc p →
              ∃ b2, can_fetch net u2 ua2 (c', w2) = (Returns b2, (c', w2)).
Proof.
  intros Hp Hmiss Hjoin Hnet Hheap Hparse.
  assert (∃ b c', can_fetch net u ua (c, w)
                  = (Returns b, (c', w ++ [robots_request robots_url]))
                  ∧ netloc p ∈ dom (cache c')) as (b & c' & Hrun & Hin).
  { unfold can_fetch, try_except.
    unfold bind at 1. unfold lift at 1. rewrite Hp.
    unfold bind at 1. unfold gets at 1. cbn [fst].
    rewrite bool_decide_eq_true_2 by done.
    unfold bind at 1. unfold bind at 1. unfold lift at 1. rewrite Hjoin.
    unfold bind at 1. unfold on_world, requests_get. fold (robots_request robots_url).
    rewrite Hnet. unfold bind at 1. unfold parser_parse. rewrite Hheap, Hparse.
    unfold cache_store, modify, cache_is_allowed. cbn [cache heap].
    rewrite !lookup_insert_eq.
    destruct (is_allowed rules' ua u) as [b|e]; unfold ret;
      eexists _, _; (split; [reflexivity|]); cbn [cache];
      rewrite dom_insert_L; apply elem_of_union_l; by apply elem_of_singleton. }
  exists b, c'. splits; [done|done|].
  intros u2 p2 ua2 w2 Hp2 Hdom.
  apply (can_fetch_hit_no_request net) with (p := p2); [done|]. by rewrite Hdom.
Qed.

(** X9.  The cache only grows: neither [can_fetch] nor a whole [scrape]
    ever drops the entry of a domain. *)
Theorem cache_only_grows u ua c s w :
  dom (cache c) ⊆ dom (cache (can_fetch net u ua (c, w)).2.1)
  ∧ dom (cache (robots_checker s))
    ⊆ dom (cache (robots_checker (scrape net u (s, w)).2.1)).
Proof.
  split.
  - destruct (can_fetch_inv u ua c w) as (b & c' & w' & -> & _ & Hdom & _). done.
  - destruct (_is_valid_url u) eqn:Hv.
    2:{ by rewrite scrape_invalid. }
    assert (∀ s0 w0, robots_checker (scrape_run net u (s0, w0)).2.1 = robots_checker s0)
      as Hkeep.
    { intros s0 w0.
      destruct (scrape_run_spec net u s0 w0) as (r & s1 & w1 & -> & _ & _ & Hrob & _).
      done. }
    destruct (respect_robots_txt (config s)) eqn:Hr.
    + destruct (can_fetch_inv u "*" (robots_checker s) w)
        as (b & c' & w' & Hc & _ & Hdom & _).
      rewrite (scrape_robots net _ _ _ _ _ _ Hv Hr Hc).
      destruct b; [by rewrite Hkeep|done].
    + rewrite scrape_no_robots by done. by rewrite Hkeep.
Qed.

(** X10.  [can_fetch] fails open: it answers [False] only when the cached
    parser of the URL's domain itself says that the URL is not allowed;
    no error on the way can produce a refusal. *)
Theorem can_fetch_denies_only_by_rule u ua c w c' w' :
  can_fetch net u ua (c, w) = (Returns false, (c', w')) →
  ∃ p l rules, urlparse u = Returns p
               ∧ cache c' !! netloc p = Some l
               ∧ heap c' !! l = Some rules
               ∧ is_allowed rules ua u = Returns false.
Proof.
  intros Hrun.
  destruct (can_fetch_inv u ua c w) as (b & c1 & w1 & Hc & _ & _ & _ & Hdeny).
  rewrite Hrun in Hc. injection Hc as <- <- <-. by apply Hdeny.
Qed.

(** ** Link extraction, continued *)

Lemma endswith_any_false_intro s exts :
  (∀ ext, ext ∈ exts → endswith s ext = false) → endswith_any s exts = false.
Proof.
  intros Hall. unfold endswith_any.
  destruct (existsb (endswith s) exts) eqn:E; [|done].
  apply existsb_exists in E as (ext & Hin%list_elem_of_In & Hends).
  by rewrite (Hall ext Hin) in Hends.
Qed.

Lemma extract_links_loop_complete base_url base_domain hrefs links f out :
  extract_links_loop base_url base_domain hrefs links f = (Returns out, f) →
  (∀ link, link ∈ links → link ∈ out)
  ∧ ∀ href link, href ∈ hrefs → urljoin base_url href = Returns link →
                 kept (visited_urls (self f)) base_domain link → link ∈ out.
Proof.
  revert links. induction hrefs as [|href rest IH]; intros links; simpl.
  - unfold_monad. intros [= <-]. split; [done|]. by intros ?? ?%elem_of_nil.
  - unfold_monad. destruct (urljoin base_url href) as [u|e] eqn:Hjoin; [|done].
    destruct (urlparse u) as [p|e] eqn:Hparse; [|done].
    destruct (_ && _) eqn:Htest; intros Hrun;
      destruct (IH _ Hrun) as [Hacc Hrest]; split.
    + intros link Hin. apply Hacc, elem_of_app. by left.
    + intros href' link [->|Hin]%elem_of_cons Hjoin' Hkept; [|by eapply Hrest].
      rewrite Hjoin in Hjoin'. injection Hjoin' as <-.
      apply Hacc, elem_of_app. right. by apply list_elem_of_singleton.
    + done.
    + intros href' link [->|Hin]%elem_of_cons Hjoin' Hkept; [|by eapply Hrest].
      rewrite Hjoin in Hjoin'. injection Hjoin' as <-. exfalso.
      destruct Hkept as ((p' & Hp' & Hdom) & Hvis & Hext).
      rewrite Hparse in Hp'. injection Hp' as <-.
      assert ((String.eqb (netloc p) base_domain
               && bool_decide (u ∉ visited_urls (self f))
               && negb (endswith_any u binary_extensions)) = true) as Htrue;
        [|exact (eq_true_false_abs _ Htrue Htest)].
      apply andb_true_intro. split; [apply andb_true_intro; split|].
      * by apply String.eqb_eq.
      * by apply bool_decide_eq_true_2.
      * apply negb_true_iff, endswith_any_false_intro. intros ext Hin.
        destruct (endswith u ext) eqn:E; [|done].
        apply endswith_iff in E as [pre ->]. by destruct (Hext ext Hin pre).
Qed.

(** X11.  [_extract_links] leaves nothing out: every [href] of the page
    whose resolution is on the base URL's network location, not visited
    and not ending in a binary extension is among the links it returns. *)
Theorem extract_links_complete soup base f links f' b href link :
  _extract_links soup base f = (Returns links, f') →
  urlparse base = Returns b →
  href ∈ anchor_hrefs soup →
  urljoin base href = Returns link →
  kept (visited_urls (self f)) (netloc b) link →
  link ∈ links.
Proof.
  intros Hrun Hb Hin Hjoin Hkept.
  pose proof (_extract_links_frame _ _ _ _ _ Hrun) as ->.
  unfold _extract_links in Hrun. unfold bind at 1 in Hrun. unfold lift at 1 in Hrun.
  rewrite Hb in Hrun.
  apply extract_links_loop_complete in Hrun as [_ Hall]. by eapply Hall.
Qed.

End ScraperExtras.

(** * The content extractor *)

Section ContentFacts.

Lemma elem_of_find_all soup names n :
  n ∈ find_all soup names → ∃ name, tag_name n = Some name ∧ name ∈ names.
Proof.
  unfold find_all. intros Hin%list_elem_of_In. apply filter_In in Hin as [_ Hname].
  unfold has_name in Hname. destruct (tag_name n) as [name|]; [|done].
  exists name. split; [done|]. by apply bool_decide_eq_true_1 in Hname.
Qed.

Lemma length_omap_total {A B} (f : A → option B) (l : list A) :
  (∀ x, x ∈ l → is_Some (f x)) → length (omap f l) = length l.
Proof.
  induction l as [|x l IH]; intros Hall; [done|]. simpl.
  destruct (Hall x) as [y Hy]; [by left|]. rewrite Hy. simpl. f_equal.
  apply IH. intros z Hz. apply Hall. by right.
Qed.

(** X12.  The headings of an extracted content are the [h1] to [h4]
    elements of the page, one each and in document order, and every level
    is between 1 and 4. *)
Theorem headings_levels soup :
  length (headings (_extract_content soup))
    = length (find_all soup ["h1"; "h2"; "h3"; "h4"])
  ∧ ∀ h, h ∈ headings (_extract_content soup) → 1 ≤ level h ≤ 4.
Proof.
  cbn [_extract_content headings]. split.
  - apply length_omap_total. intros n (name & -> & _)%elem_of_find_all. by eexists.
  - intros h (n & Hn & Hh)%list_elem_of_omap.
    apply elem_of_find_all in Hn as (name & Hname & Hin).
    rewrite Hname in Hh. cbn in Hh. injection Hh as <-. cbn [level].
    repeat (apply elem_of_cons in Hin as [->|Hin]; [vm_compute; split; discriminate|]).
    by apply elem_of_nil in Hin.
Qed.

Lemma lstrip_head s c rest : lstrip s = String c rest → isspace c = false.
Proof.
  induction s as [|a s IH]; [done|]. unfold lstrip in *. cbn.
  destruct (isspace a) eqn:Ha; [exact IH|]. by intros [= <- _].
Qed.

Lemma lstrip_suffix s : ∃ spaces, s = spaces +:+ lstrip s.
Proof.
  induction s as [|a s [spaces IH]]; [by exists ""|].
  unfold lstrip in *. cbn. destruct (isspace a).
  - exists (String a spaces). by rewrite append_cons, <- IH.
  - by exists "".
Qed.

Lemma strip_stripped s : stripped (strip s).
Proof.
  unfold strip. set (a := lstrip s). set (b := lstrip (String.rev a)).
  assert (∃ tail, a = String.rev b +:+ tail) as [tail Ha].
  { destruct (lstrip_suffix (String.rev a)) as [spaces Hrev]. fold b in Hrev.
    exists (String.rev spaces).
    by rewrite <- (rev_involutive a), Hrev, rev_append. }
  split.
  - intros c rest Heq. apply (lstrip_head s c (rest +:+ tail)).
    fold a. by rewrite Ha, Heq, append_cons.
  - intros c front Heq. apply (lstrip_head (String.rev a) c (String.rev front)).
    fold b. by rewrite <- (rev_involutive b), Heq, rev_append.
Qed.

(** X13.  The texts of an extracted content carry no white space at
    either end: the title, the heading texts, the paragraphs and the code
    blocks; and no paragraph and no code block is empty. *)
Theorem texts_stripped soup :
  let page_content := _extract_content soup in
  stripped (title page_content)
  ∧ (∀ h, h ∈ headings page_content → stripped (heading_text h))
  ∧ (∀ t, t ∈ paragraphs page_content → t ≠ "" ∧ stripped t)
  ∧ (∀ t, t ∈ code_blocks page_content → t ≠ "" ∧ stripped t).
Proof.
  assert (∀ names t,
            t ∈ List.filter non_empty (map (λ n, strip (get_text n)) (find_all soup names)) →
            t ≠ "" ∧ stripped t) as Hgen.
  { intros names t Hin%list_elem_of_In. apply filter_In in Hin as [Hin Hne].
    split.
    - intros ->. done.
    - apply in_map_iff in Hin as (n & <- & _). apply strip_stripped. }
  cbv zeta. cbn [_extract_content title headings paragraphs code_blocks].
  splits.
  - destruct (find soup "title"); [apply strip_stripped|].
    split; [done|]. intros c front Heq. by destruct front.
  - intros h (n & _ & Hh)%list_elem_of_omap.
    destruct (tag_name n); [|done]. cbn in Hh. injection Hh as <-. apply strip_stripped.
  - intros t Ht. by apply (Hgen ["p"]).
  - intros t Ht. by apply (Hgen ["code"]).
Qed.

End ContentFacts.

(** * Properties of the consumers of a crawl result *)

Section StringFacts.

Lemma split_lines_nonempty s : split_lines s ≠ [].
Proof.
  destruct s as [|c s]; [done|]. simpl.
  destruct (Ascii.eqb c "010"); [done|]. by destruct (split_lines s).
Qed.

(** ['\n'.join(s.split('\n')) == s] *)
Lemma join_split_lines s : join LF (split_lines s) = s.
Proof.
  induction s as [|c s IH]; [done|]. simpl.
  destruct (Ascii.eqb c "010") eqn:Hc.
  - apply Ascii.eqb_eq in Hc as ->.
    pose proof (split_lines_nonempty s) as Hne.
    destruct (split_lines s) as [|line lines] eqn:Hs; [done|].
    change (join LF ("" :: line :: lines)) with ("" +:+ LF +:+ join LF (line :: lines)).
    by rewrite IH.
  - pose proof (split_lines_nonempty s) as Hne.
    destruct (split_lines s) as [|line lines] eqn:Hs; [done|].
    destruct lines as [|line' lines].
    + simpl in *. by rewrite IH.
    + change (join LF (String c line :: line' :: lines))
        with (String c line +:+ LF +:+ join LF (line' :: lines)).
      change (join LF (line :: line' :: lines))
        with (line +:+ LF +:+ join LF (line' :: lines)) in IH.
      by rewrite append_cons, IH.
Qed.

(** A line break in the text separates the lines before it from the lines
    after it. *)
Lemma split_lines_app a b :
  split_lines (a +:+ LF +:+ b) = split_lines a ++ split_lines b.
Proof.
  induction a as [|c a IH]; [done|].
  rewrite append_cons. simpl. rewrite IH.
  destruct (Ascii.eqb c "010"); [done|].
  pose proof (split_lines_nonempty a) as Hne.
  by destruct (split_lines a).
Qed.

Lemma join_cons sep part rest :
  rest ≠ [] → join sep (part :: rest) = part +:+ sep +:+ join sep rest.
Proof. by destruct rest. Qed.

Lemma join_app sep l1 l2 :
  l1 ≠ [] → l2 ≠ [] → join sep (l1 ++ l2) = join sep l1 +:+ sep +:+ join sep l2.
Proof.
  intros Hl1 Hl2. induction l1 as [|part l1 IH]; [done|].
  destruct l1 as [|part' l1].
  - simpl app. by rewrite join_cons.
  - rewrite <- app_comm_cons. rewrite !join_cons by done.
    rewrite IH by done. by rewrite !append_assoc.
Qed.

Lemma occurs_in_join sep part parts : part ∈ parts → occurs_in part (join sep parts).
Proof.
  intros (l1 & l2 & ->)%list_elem_of_split.
  destruct l1 as [|p1 l1], l2 as [|p2 l2].
  - exists "", "". cbn [app join]. by rewrite append_empty_r.
  - exists "", (sep +:+ join sep (p2 :: l2)). cbn [app]. by rewrite join_cons.
  - exists (join sep (p1 :: l1) +:+ sep), "".
    rewrite join_app by done. cbn [join].
    by rewrite append_empty_r, append_assoc.
  - exists (join sep (p1 :: l1) +:+ sep), (sep +:+ join sep (p2 :: l2)).
    rewrite join_app by done. rewrite (join_cons sep part) by done.
    by rewrite !append_assoc.
Qed.

Lemma occurs_in_trans a b c : occurs_in a b → occurs_in b c → occurs_in a c.
Proof.
  intros (x & y & ->) (x' & y' & ->).
  exists (x' +:+ x), (y +:+ y'). by rewrite !append_assoc.
Qed.

Lemma filter_existsb_false {A} (f : A → bool) (l : list A) :
  existsb f l = false → List.filter (λ x, negb (f x)) l = l.
Proof.
  induction l as [|x l IH]; [done|]. simpl.
  intros [Hx Hl]%orb_false_iff. rewrite Hx. simpl. by rewrite IH.
Qed.

End StringFacts.

Section ChunkFacts.
Context {Token : Type} (encode : string → list Token) (decode : list Token → string).

(** The loop hands every token on, in order: the token groups it flushes,
    followed by the group it still holds, are the group it started with
    followed by the tokens it read. *)
Lemma chunk_loop_groups chunk_size tokens chunks current_chunk current_length :
  ∃ groups rest,
    chunk_loop decode chunk_size tokens chunks current_chunk current_length
      = (chunks ++ map decode groups, rest)
    ∧ concat groups ++ rest = current_chunk ++ tokens.
Proof.
  revert chunks current_chunk current_length.
  induction tokens as [|token tokens IH]; intros chunks cur len.
  - exists [], cur. simpl. by rewrite !app_nil_r.
  - simpl. destruct (len + 1 <=? chunk_size).
    + destruct (IH chunks (cur ++ [token]) (len + 1)) as (groups & rest & -> & Hcat).
      exists groups, rest. split; [done|]. by rewrite Hcat, <- app_assoc.
    + destruct (IH (chunks ++ [decode cur]) [token] 1) as (groups & rest & -> & Hcat).
      exists (cur :: groups), rest. split.
      * by rewrite <- app_assoc.
      * simpl. by rewrite <- app_assoc, Hcat.
Qed.

(** With a positive chunk size and a group within it, every flushed group
    is full and the group held at the end is within the size; it is empty
    only if nothing was held and nothing was read. *)
Lemma chunk_loop_full chunk_size tokens chunks current_chunk current_length :
  1 ≤ chunk_size →
  current_length = Z.of_nat (length current_chunk) →
  current_length ≤ chunk_size →
  ∃ groups rest,
    chunk_loop decode chunk_size tokens chunks current_chunk current_length
      = (chunks ++ map decode groups, rest)
    ∧ concat groups ++ rest = current_chunk ++ tokens
    ∧ Forall (λ group, Z.of_nat (length group) = chunk_size) groups
    ∧ Z.of_nat (length rest) ≤ chunk_size
    ∧ (rest = [] → current_chunk ++ tokens = []).
Proof.
  intros Hsize. revert chunks current_chunk current_length.
  induction tokens as [|token tokens IH]; intros chunks cur len Hlen Hle.
  - exists [], cur. simpl. rewrite !app_nil_r. splits; try done. lia.
  - simpl. destruct (len + 1 <=? chunk_size) eqn:Hfit.
    + apply Z.leb_le in Hfit.
      destruct (IH chunks (cur ++ [token]) (len + 1))
        as (groups & rest & -> & Hcat & Hfull & Hrest & Hnil).
      { rewrite length_app. simpl. lia. }
      { done. }
      exists groups, rest. rewrite <- app_assoc in Hcat, Hnil. by splits.
    + apply Z.leb_gt in Hfit.
      destruct (IH (chunks ++ [decode cur]) [token] 1)
        as (groups & rest & -> & Hcat & Hfull & Hrest & Hnil).
      { done. }
      { done. }
      exists (cur :: groups), rest. splits.
      * by rewrite <- app_assoc.
      * simpl. by rewrite <- app_assoc, Hcat.
      * constructor; [lia|done].
      * done.
      * intros Hr. by specialize (Hnil Hr).
Qed.

(** Without a positive chunk size no token fits: every token flushes the
    group held before it. *)
Lemma chunk_loop_degenerate chunk_size token tokens chunks current_chunk current_length :
  chunk_size ≤ 0 → 0 ≤ current_length →
  ∃ front final,
    chunk_loop decode chunk_size (token :: tokens) chunks current_chunk current_length
      = (chunks ++ decode current_chunk :: map (λ t, decode [t]) front, [final])
    ∧ front ++ [final] = token :: tokens.
Proof.
  intros Hsize. revert token chunks current_chunk current_length.
  induction tokens as [|token' tokens IH]; intros token chunks cur len Hlen.
  - exists [], token. simpl.
    destruct (len + 1 <=? chunk_size) eqn:Hfit; [apply Z.leb_le in Hfit; lia|done].
  - cbn [chunk_loop].
    destruct (len + 1 <=? chunk_size) eqn:Hfit; [apply Z.leb_le in Hfit; lia|].
    destruct (IH token' (chunks ++ [decode cur]) [token] 1) as (front & final & Hrun & Hcat);
      [lia|].
    cbn [chunk_loop] in Hrun. rewrite Hrun.
    exists (token :: front), final. split.
    + by rewrite <- app_assoc.
    + simpl. by rewrite Hcat.
Qed.

(** X14.  Chunking loses nothing: the chunks are the decodings of
    consecutive groups of the text's tokens, and the groups together are
    the token sequence, in order. *)
Theorem chunks_cover chunk_size text :
  text ≠ "" →
  ∃ groups,
    _chunk_content encode decode chunk_size text = map decode groups
    ∧ concat groups = encode text.
Proof.
  intros Htext. unfold _chunk_content.
  apply String.eqb_neq in Htext. rewrite Htext.
  destruct (chunk_loop_groups chunk_size (encode text) [] [] 0)
    as (groups & rest & -> & Hcat).
  simpl in *. destruct rest as [|token rest].
  - exists groups. by rewrite app_nil_r in Hcat.
  - exists (groups ++ [token :: rest]). split.
    + by rewrite map_app.
    + rewrite concat_app. simpl. by rewrite app_nil_r.
Qed.

(** X15.  With a chunk size of at least one, every chunk but the last
    decodes exactly [chunk_size] tokens, and the last decodes between one
    and [chunk_size] tokens: no chunk is empty and none exceeds the size. *)
Theorem chunks_within_size chunk_size text :
  1 ≤ chunk_size → text ≠ "" → encode text ≠ [] →
  ∃ full final,
    _chunk_content encode decode chunk_size text = map decode (full ++ [final])
    ∧ concat full ++ final = encode text
    ∧ Forall (λ group, Z.of_nat (length group) = chunk_size) full
    ∧ 1 ≤ Z.of_nat (length final) ≤ chunk_size.
Proof.
  intros Hsize Htext Htokens. unfold _chunk_content.
  apply String.eqb_neq in Htext. rewrite Htext.
  destruct (chunk_loop_full chunk_size (encode text) [] [] 0)
    as (groups & rest & -> & Hcat & Hfull & Hrest & Hnil); [done|done|lia|].
  simpl in *. destruct rest as [|token rest].
  - by specialize (Hnil eq_refl).
  - exists groups, (token :: rest). rewrite map_app. splits; try done.
    simpl. lia.
Qed.

(** X16.  With a chunk size of zero or less the limit is not enforced:
    the first chunk is the decoding of no token at all, and every token
    of the text then makes a chunk of its own. *)
Theorem chunks_without_size chunk_size text :
  chunk_size ≤ 0 → text ≠ "" → encode text ≠ [] →
  _chunk_content encode decode chunk_size text
    = decode [] :: map (λ token, decode [token]) (encode text).
Proof.
  intros Hsize Htext Htokens. unfold _chunk_content.
  apply String.eqb_neq in Htext. rewrite Htext.
  destruct (encode text) as [|token tokens]; [done|].
  destruct (chunk_loop_degenerate chunk_size token tokens [] [] 0)
    as (front & final & -> & <-); [done|done|].
  simpl. by rewrite map_app.
Qed.

Lemma length_concat_full (groups : list (list Token)) (size : Z) :
  Forall (λ group, Z.of_nat (length group) = size) groups →
  Z.of_nat (length (concat groups)) = size * Z.of_nat (length groups).
Proof.
  induction 1 as [|group groups Hgroup _ IH]; [simpl; lia|].
  cbn [concat length]. rewrite length_app. lia.
Qed.

(** X17.  With a chunk size of at least one, a text of [n] tokens gives
    [n / chunk_size] chunks, rounded up. *)
Theorem chunk_count chunk_size text :
  1 ≤ chunk_size → text ≠ "" →
  Z.of_nat (length (_chunk_content encode decode chunk_size text))
    = (Z.of_nat (length (encode text)) + chunk_size - 1) / chunk_size.
Proof.
  intros Hsize Htext. unfold _chunk_content.
  apply String.eqb_neq in Htext. rewrite Htext.
  destruct (chunk_loop_full chunk_size (encode text) [] [] 0)
    as (groups & rest & -> & Hcat & Hfull & Hrest & Hnil); [done|done|lia|].
  apply length_concat_full in Hfull.
  cbn [app] in *. rewrite <- Hcat, length_app.
  destruct rest as [|token rest].
  - rewrite length_map. cbn [length] in *.
    apply Z.div_unique with (r := chunk_size - 1); lia.
  - rewrite length_app, length_map. cbn [length] in *.
    apply Z.div_unique with (r := Z.of_nat (length rest)); lia.
Qed.

End ChunkFacts.

Section DuplicateFacts.
Context {QA : Type} (question : QA → option string).

Lemma questions_of_app l1 l2 :
  questions_of question (l1 ++ l2) = questions_of question l1 ++ questions_of question l2.
Proof. apply omap_app. Qed.

Lemma questions_of_some qa q rest :
  question qa = Some q →
  questions_of question (qa :: rest) = str_lower q :: questions_of question rest.
Proof. intros Hq. unfold questions_of. simpl. by rewrite Hq. Qed.

Lemma questions_of_none qa rest :
  question qa = None →
  questions_of question (qa :: rest) = questions_of question rest.
Proof. intros Hq. unfold questions_of. simpl. by rewrite Hq. Qed.

Lemma unique_loop_spec all_qa_pairs seen_questions unique_qa_pairs :
  (∀ q, q ∈ seen_questions ↔ q ∈ questions_of question unique_qa_pairs) →
  NoDup (questions_of question unique_qa_pairs) →
  ∃ kept,
    unique_loop question all_qa_pairs seen_questions unique_qa_pairs
      = unique_qa_pairs ++ kept
    ∧ kept `sublist_of` all_qa_pairs
    ∧ NoDup (questions_of question (unique_qa_pairs ++ kept))
    ∧ length (questions_of question kept) = length kept
    ∧ ∀ q, q ∈ questions_of question all_qa_pairs →
           q ∈ questions_of question (unique_qa_pairs ++ kept).
Proof.
  revert seen_questions unique_qa_pairs.
  induction all_qa_pairs as [|qa rest IH]; intros seen uniq Hseen Hnodup.
  - exists []. cbn [unique_loop]. rewrite app_nil_r. splits; try done.
    intros q Hq. by apply elem_of_nil in Hq.
  - cbn [unique_loop]. destruct (question qa) as [q|] eqn:Hq.
    + cbv zeta. case_bool_decide as Hnew.
      * destruct (IH ({[str_lower q]} ∪ seen) (uniq ++ [qa]))
          as (kept & -> & Hsub & Hnd & Hlen & Hall).
        { intros q'. rewrite questions_of_app, (questions_of_some qa q) by done.
          rewrite elem_of_union, elem_of_singleton, elem_of_app,
            list_elem_of_singleton, Hseen. tauto. }
        { rewrite questions_of_app, (questions_of_some qa q) by done.
          apply NoDup_app. splits; [done| |apply NoDup_singleton].
          intros q' Hin ->%list_elem_of_singleton. apply Hnew. by apply Hseen. }
        exists (qa :: kept). rewrite <- app_assoc in *. cbn [app] in *. splits.
        -- done.
        -- by apply sublist_skip.
        -- done.
        -- rewrite (questions_of_some qa q) by done. cbn [length]. by rewrite Hlen.
        -- intros q'. rewrite (questions_of_some qa q rest) by done.
           intros [->|Hin]%elem_of_cons; [|by apply Hall].
           rewrite questions_of_app, (questions_of_some qa q) by done.
           apply elem_of_app. right. apply elem_of_cons. by left.
      * destruct (IH seen uniq) as (kept & -> & Hsub & Hnd & Hlen & Hall); [done|done|].
        exists kept. splits; try done.
        -- by apply sublist_cons.
        -- intros q'. rewrite (questions_of_some qa q rest) by done.
           intros [->|Hin]%elem_of_cons; [|by apply Hall].
           rewrite questions_of_app. apply elem_of_app. left. by apply Hseen.
    + destruct (IH seen uniq) as (kept & -> & Hsub & Hnd & Hlen & Hall); [done|done|].
      exists kept. splits; try done.
      * by apply sublist_cons.
      * intros q'. rewrite (questions_of_none qa rest) by done. apply Hall.
Qed.

(** X18.  Removing duplicate questions keeps a selection of the pairs, in
    their order; every kept pair has a question, no two kept questions
    are equal up to letter case, and every question of the input is still
    there up to letter case. *)
Theorem duplicates_removed all_qa_pairs :
  let unique_qa_pairs := remove_duplicate_questions question all_qa_pairs in
  unique_qa_pairs `sublist_of` all_qa_pairs
  ∧ NoDup (questions_of question unique_qa_pairs)
  ∧ length (questions_of question unique_qa_pairs) = length unique_qa_pairs
  ∧ ∀ q, q ∈ questions_of question all_qa_pairs ↔ q ∈ questions_of question unique_qa_pairs.
Proof.
  cbv zeta. unfold remove_duplicate_questions.
  destruct (unique_loop_spec all_qa_pairs ∅ []) as (kept & -> & Hsub & Hnd & Hlen & Hall).
  { intros q. simpl. set_solver. }
  { apply NoDup_nil_2. }
  simpl in *. splits; try done.
  intros q. split; [apply Hall|].
  unfold questions_of. intros (qa & Hin & Hq)%list_elem_of_omap.
  apply list_elem_of_omap. exists qa. split; [|done].
  by eapply elem_of_sublist.
Qed.

End DuplicateFacts.

Section CleanFacts.

(** X19.  An answer without a code fence line and without a leading
    [json] is returned as it is, stripped. *)
Theorem clean_json_plain content :
  existsb is_fence (split_lines content) = false →
  String.prefix "json" (strip content) = false →
  _clean_json_response content = Returns (strip content).
Proof.
  intros Hfence Hjson. unfold _clean_json_response. rewrite Hfence.
  cbv zeta. rewrite join_split_lines. by rewrite Hjson.
Qed.

(** X20.  The only answer on which the cleaning raises ([IndexError] at
    [lines[-1]]) is a single line that is a code fence. *)
Theorem clean_json_raises content :
  (∃ e, _clean_json_response content = Raises e)
  ↔ split_lines content = [content] ∧ is_fence content = true.
Proof.
  unfold _clean_json_response.
  pose proof (split_lines_nonempty content) as Hne.
  pose proof (join_split_lines content) as Hjoin.
  destruct (split_lines content) as [|first rest]; [done|].
  split.
  - intros [e He].
    destruct (existsb is_fence (first :: rest)) eqn:Hany; [|done].
    cbn [head] in He. destruct (is_fence first) eqn:Hfirst.
    + change (drop 1 (first :: rest)) with rest in He. destruct rest as [|l rest].
      * simpl in Hjoin. by subst.
      * destruct (last_is_Some (l :: rest)) as [_ [final Hfinal]]; [done|].
        rewrite Hfinal in He. done.
    + destruct (last_is_Some (first :: rest)) as [_ [final Hfinal]]; [done|].
      rewrite Hfinal in He. done.
  - intros [[= <- ->] Hfence]. simpl. rewrite Hfence. simpl. by eexists.
Qed.

(** X21.  A fenced answer is unwrapped: with a fence line before and one
    after a body that has no fence line and no leading [json], the
    cleaning returns the stripped body. *)
Theorem clean_json_fenced opening body closing :
  split_lines opening = [opening] → is_fence opening = true →
  split_lines closing = [closing] → is_fence closing = true →
  existsb is_fence (split_lines body) = false →
  String.prefix "json" (strip body) = false →
  _clean_json_response (opening +:+ LF +:+ body +:+ LF +:+ closing)
    = Returns (strip body).
Proof.
  intros Hopen Hofence Hclose Hcfence Hbody Hjson. unfold _clean_json_response.
  rewrite !split_lines_app, Hopen, Hclose.
  change ([opening] ++ split_lines body ++ [closing])
    with (opening :: (split_lines body ++ [closing])).
  cbn [existsb head]. rewrite Hofence. cbn [orb].
  change (drop 1 (opening :: (split_lines body ++ [closing])))
    with (split_lines body ++ [closing]).
  rewrite last_snoc, Hcfence.
  rewrite length_app. cbn [length].
  replace (length (split_lines body) + 1 - 1)%nat with (length (split_lines body)) by lia.
  rewrite take_app_length.
  rewrite filter_existsb_false by done.
  rewrite join_split_lines. by rewrite Hjson.
Qed.

End CleanFacts.

Section MarkdownFacts.
Context (cfg : ConversionConfig).

Lemma create_markdown_parts_nonempty pages :
  pages ≠ [] →
  flat_map (λ page, [_create_markdown_content cfg page; page_separator]) pages ≠ [].
Proof. by destruct pages. Qed.

(** X22.  The document of a crawl is the documents of its parts, one
    after the other: rendering the pages of two results together gives
    the two renderings joined by a line break. *)
Theorem create_markdown_app b e r1 r2 :
  pages r1 ≠ [] → pages r2 ≠ [] →
  create_markdown cfg {| base_url := b; pages := pages r1 ++ pages r2; error := e |}
    = create_markdown cfg r1 +:+ LF +:+ create_markdown cfg r2.
Proof.
  intros H1 H2. unfold create_markdown. cbn [pages].
  rewrite flat_map_app.
  by apply join_app; apply create_markdown_parts_nonempty.
Qed.

Lemma page_in_document r page :
  page ∈ pages r → occurs_in (_create_markdown_content cfg page) (create_markdown cfg r).
Proof.
  intros Hpage. apply occurs_in_join. apply list_elem_of_In, in_flat_map.
  exists page. split; [by apply list_elem_of_In|by left].
Qed.

Lemma source_in_document r page :
  page ∈ pages r →
  occurs_in ("*Source: " +:+ url page +:+ "*" +:+ LF) (create_markdown cfg r).
Proof.
  intros Hpage. eapply occurs_in_trans; [|by apply page_in_document].
  apply occurs_in_join. unfold markdown_parts.
  apply elem_of_app. right. apply elem_of_app. left. by apply list_elem_of_singleton.
Qed.

(** X23.  Whatever the configuration, the document names the source of
    every page and carries each of its paragraphs between line breaks. *)
Theorem create_markdown_sources r page :
  page ∈ pages r →
  occurs_in ("*Source: " +:+ url page +:+ "*" +:+ LF) (create_markdown cfg r)
  ∧ ∀ paragraph, paragraph ∈ paragraphs (content page) →
      occurs_in (LF +:+ paragraph +:+ LF) (create_markdown cfg r).
Proof.
  intros Hpage. split; [by apply source_in_document|].
  intros paragraph Hpar.
  eapply occurs_in_trans; [|by apply page_in_document].
  apply occurs_in_join. unfold markdown_parts.
  apply elem_of_app. right. apply elem_of_app. right.
  apply elem_of_app. right. apply elem_of_app. left.
  by apply (list_elem_of_fmap_2 (λ paragraph, LF +:+ paragraph +:+ LF)).
Qed.

End MarkdownFacts.

Section PipelineFacts.
Context `{Libraries} (net : Network) (cfg : ConversionConfig).


End PipelineFacts.

(** * Runs on the concrete sites *)

(** ** C1 and C2 *)

(** C1 on [site] with a budget of three pages. *)
Lemma pages_within_budget_witness :
  0 < max_pages (config_of 3 false true)
  ∧ Z.of_nat (length (pages (value_of (run site (config_of 3 false true) seed).1))) ≤ 3.
Proof.
  split; [reflexivity|].
  apply (pages_within_budget site seed (init (config_of 3 false true)) []
           _ (run site (config_of 3 false true) seed).2.1
             (run site (config_of 3 false true) seed).2.2).
  - reflexivity.
  - run_it.
Defined.

(** Without a positive budget the bound is lost: with [max_pages = 0] the
    seed page is still returned. *)
Example budget_zero_keeps_seed :
  map url (pages (value_of (run site (config_of 0 false true) seed).1)) = [seed].
Proof. run_it. Qed.

(** C2 on [site], whose front page lists [/a] twice. *)
Lemma pages_urls_distinct_witness :
  map url (pages (value_of (run site (config_of 10 true true) seed).1))
    = [seed; "https://example.com/a"; "https://example.com/c"]
  ∧ NoDup (map url (pages (value_of (run site (config_of 10 true true) seed).1))).
Proof.
  split; [run_it|].
  apply (pages_urls_distinct site seed (init (config_of 10 true true)) []
           _ (run site (config_of 10 true true) seed).2.1
             (run site (config_of 10 true true) seed).2.2).
  run_it.
Defined.

(** ** C3 *)



(** ** C4 *)

(** C4 on [flaky_site]: the one request for the seed fails, and it is not
    made again. *)
Lemma scrape_seed_unavailable_witness :
  ∃ r s', run flaky_site (config_of 3 false true) seed
          = (Returns r,
             (s', seed_log flaky_site seed (init (config_of 3 false true)) []
                  ++ [page_request seed]))
          ∧ pages r = []
          ∧ (∃ msg, error r = Some msg ∧ msg ≠ "")
          ∧ visited_urls s' = visited_urls (init (config_of 3 false true)).
Proof.
  apply (scrape_seed_unavailable flaky_site seed (init (config_of 3 false true)) []).
  - run_it.
  - left. reflexivity.
  - vm_compute. split; [discriminate|reflexivity].
Defined.

(** C4 as stated fails for a status outside 2xx that is not 4xx or 5xx:
    the page is taken as fetched. *)
Lemma non_2xx_seed_is_scraped :
  _is_valid_url seed = true
  ∧ respect_robots_txt (config_of 3 false true) = false
  ∧ (∀ w, not_modified_site w (page_request seed)
          = Returns {| status_code := 304; text := "" |})
  ∧ ¬ (200 ≤ 304 < 300)
  ∧ (run not_modified_site (config_of 3 false true) seed).1
    = Returns {| base_url := seed;
                 pages := [ {| url := seed; content := empty_content |} ];
                 error := None |}.
Proof. splits; [run_it|run_it|intros w; run_it|lia|run_it]. Qed.

(** ** C5 *)

(** C5 on a string with spaces and no scheme. *)
Lemma scrape_rejects_malformed_url_witness :
  _is_valid_url "not a url" = false
  ∧ ∃ msg, run site (config_of 3 true true) "not a url"
           = (Raises (ValueError msg), (init (config_of 3 true true), [])).
Proof.
  split; [run_it|].
  apply (scrape_rejects_malformed_url site "not a url"). run_it.
Defined.

(** ** C6 *)

(** C6, the defect.  Three calls on one checker: a URL of [a.example] is
    allowed, then a URL of [b.example] is refused, and then the first URL
    is refused too, although the robots file of its domain has not
    changed: both cache entries refer to the parser that now holds the
    rules of [b.example].  The third call makes no request. *)
Lemma robots_cache_entries_alias :
  let first := can_fetch two_hosts "https://a.example/docs" "*" (RobotsTxtChecker_init, []) in
  let second := can_fetch two_hosts "https://b.example/docs" "*" first.2 in
  let third := can_fetch two_hosts "https://a.example/docs" "*" second.2 in
  (first.1, second.1, third.1) = (Returns true, Returns false, Returns false)
  ∧ cache second.2.1 !! "a.example" = cache second.2.1 !! "b.example"
  ∧ third.2.2 = [ robots_request "https://a.example/robots.txt";
                  robots_request "https://b.example/robots.txt" ].
Proof. cbv zeta. splits; run_it. Qed.

(** ** C7 *)

(** C7 on a host that refuses the connection. *)
Lemma can_fetch_fail_open_witness :
  ∃ c', can_fetch offline "https://down.example/docs" "*" (RobotsTxtChecker_init, [])
        = (Returns true, (c', [] ++ [robots_request "https://down.example/robots.txt"]))
        ∧ cache c' = cache RobotsTxtChecker_init
        ∧ ∀ u2 p2 ua2 w2,
            urlparse u2 = Returns p2 → netloc p2 = "down.example" →
            ∃ b c'', can_fetch offline u2 ua2 (c', w2)
                     = (Returns b, (c'', w2 ++ [robots_request "https://down.example/robots.txt"])).
Proof.
  apply (can_fetch_fail_open offline "https://down.example/docs" "*"
           RobotsTxtChecker_init []
           {| scheme := "https"; netloc := "down.example"; path := "/docs";
              query := ""; fragment := "" |}).
  - run_it.
  - cbn. set_solver.
  - run_it.
  - apply fetch_raises with (e := ConnectionError "connection refused"). run_it.
Defined.

(** C7 as stated fails: after the failed lookup the cache has no entry for
    the domain, and the second call requests the robots file again. *)
Lemma failed_lookup_is_not_cached :
  let rq := robots_request "https://down.example/robots.txt" in
  let first := can_fetch offline "https://down.example/docs" "*" (RobotsTxtChecker_init, []) in
  let second := can_fetch offline "https://down.example/docs" "*" first.2 in
  first.1 = Returns true
  ∧ cache first.2.1 !! "down.example" = None
  ∧ first.2.2 = [rq]
  ∧ second.1 = Returns true
  ∧ second.2.2 = [rq; rq].
Proof. cbv zeta. splits; run_it. Qed.

(** ** C8 *)

(** C8 as stated fails: a second [scrape] of the same seed on the same
    instance starts from the two URLs the first one visited, which fills
    the budget, and returns the seed page alone; a new instance in the
    same world returns two pages. *)
Lemma second_scrape_starts_from_earlier_visits :
  let cfg := config_of 2 false true in
  let first := run site cfg seed in
  let again := scrape site seed first.2 in
  let fresh := scrape site seed (init cfg, first.2.2) in
  map url (pages (value_of first.1)) = [seed; "https://example.com/a"]
  ∧ elements (visited_urls first.2.1) = ["https://example.com/a"; seed]
  ∧ map url (pages (value_of again.1)) = [seed]
  ∧ map url (pages (value_of fresh.1)) = [seed; "https://example.com/a"].
Proof. cbv zeta. splits; run_it. Qed.

(** ** C9 *)

(** C9 on a page with a relative link, a download link, an image and a
    link to another host. *)
Lemma extract_links_sound_witness :
  ∃ b resolved,
    urlparse seed = Returns b
    ∧ Forall2 (λ href u, urljoin seed href = Returns u) (anchor_hrefs links_page) resolved
    ∧ ["https://example.com/guide"; "https://example.com/manual.pdf?download=1"]
        `sublist_of` resolved
    ∧ Forall (kept (visited_urls (self frame0)) (netloc b))
             ["https://example.com/guide"; "https://example.com/manual.pdf?download=1"].
Proof.
  apply (extract_links_sound links_page seed frame0 _ frame0). run_it.
Defined.

(** C9 as stated fails: a returned URL whose path ends in [.pdf], kept
    because the URL as a whole ends with its query. *)
Lemma link_with_pdf_path_is_returned :
  (_extract_links links_page seed frame0).1
    = Returns ["https://example.com/guide"; "https://example.com/manual.pdf?download=1"]
  ∧ path <$> (match urlparse "https://example.com/manual.pdf?download=1" with
              | Returns p => Some p
              | Raises _ => None
              end) = Some "/manual.pdf"
  ∧ endswith "/manual.pdf" ".pdf" = true.
Proof. splits; run_it. Qed.


(** * Runs for the further properties *)




(** X4 on [site]: one robots request and four page requests, with a budget
    of ten pages. *)
Lemma request_budget_witness :
  ∃ robots page_urls,
    (run site (config_of 10 true true) seed).2.2 = [] ++ crawl_requests robots page_urls
    ∧ (length robots ≤ 1)%nat
    ∧ Forall (λ rq, req_timeout rq = 5) robots
    ∧ Z.of_nat (length page_urls) ≤ 10.
Proof.
  apply (request_budget site seed (init (config_of 10 true true)) []
           (run site (config_of 10 true true) seed).1
           (run site (config_of 10 true true) seed).2.1).
  - reflexivity.
  - run_it.
Defined.


(** X6 on [site]: [/b], whose request fails, is not visited. *)
Lemma visited_is_pages_witness :
  visited_urls (run site (config_of 10 true true) seed).2.1
    = visited_urls (init (config_of 10 true true))
      ∪ list_to_set (map url (pages (value_of (run site (config_of 10 true true) seed).1)))
  ∧ "https://example.com/b" ∉ visited_urls (run site (config_of 10 true true) seed).2.1.
Proof.
  split.
  - apply (visited_is_pages site seed (init (config_of 10 true true)) [] _ _
             (run site (config_of 10 true true) seed).2.2).
    run_it.
  - vm_compute. intros Hin. by vm_compute in Hin.
Defined.

(** X7 on [site], with the robots file consulted: [/deep], linked from
    [/a] only, is not requested. *)
Lemma requests_are_seed_links_witness :
  ∃ r s' reqs,
    run site (config_of 10 true true) seed
      = (Returns r,
         (s', seed_log site seed (init (config_of 10 true true)) []
              ++ map page_request (seed :: reqs)))
    ∧ map url (pages r) `sublist_of` seed :: reqs
    ∧ in_page_order seed (html_parser (text front_page)) reqs
    ∧ Forall (seed_link seed (html_parser (text front_page))) reqs.
Proof.
  pose proof (requests_are_seed_links site seed (init (config_of 10 true true)) [])
    as Hrequests.
  assert (fetched (site (seed_log site seed (init (config_of 10 true true)) [])
                        (page_request seed)) = Some front_page) as Hfetch by run_it.
  rewrite Hfetch in Hrequests. apply Hrequests.
  - run_it.
  - right. eexists (_, _). run_it.
Defined.

(** X8 on [two_hosts]: the robots file of [a.example] is fetched once. *)
Lemma robots_cached_after_lookup_witness :
  ∃ b c', can_fetch two_hosts "https://a.example/docs" "*" (RobotsTxtChecker_init, [])
          = (Returns b, (c', [] ++ [robots_request "https://a.example/robots.txt"]))
          ∧ "a.example" ∈ dom (cache c')
          ∧ ∀ u2 p2 ua2 w2,
              urlparse u2 = Returns p2 → netloc p2 = "a.example" →
              ∃ b2, can_fetch two_hosts u2 ua2 (c', w2) = (Returns b2, (c', w2)).
Proof.
  apply (robots_cached_after_lookup two_hosts "https://a.example/docs" "*"
           RobotsTxtChecker_init []
           {| scheme := "https"; netloc := "a.example"; path := "/docs";
              query := ""; fragment := "" |}
           "https://a.example/robots.txt"
           {| status_code := 200; text := "User-agent: *" |}
           new_rules new_rules).
  - run_it.
  - cbn. set_solver.
  - run_it.
  - run_it.
  - run_it.
  - run_it.
Defined.

(** X10 on [two_hosts]: the refusal for [b.example] comes from its rule. *)
Lemma can_fetch_denies_only_by_rule_witness :
  let checked := can_fetch two_hosts "https://b.example/docs" "*"
                   (RobotsTxtChecker_init, []) in
  ∃ p l rules, urlparse "https://b.example/docs" = Returns p
               ∧ cache checked.2.1 !! netloc p = Some l
               ∧ heap checked.2.1 !! l = Some rules
               ∧ is_allowed rules "*" "https://b.example/docs" = Returns false.
Proof.
  apply (can_fetch_denies_only_by_rule two_hosts "https://b.example/docs" "*"
           RobotsTxtChecker_init []
           (can_fetch two_hosts "https://b.example/docs" "*"
              (RobotsTxtChecker_init, [])).2.1
           (can_fetch two_hosts "https://b.example/docs" "*"
              (RobotsTxtChecker_init, [])).2.2).
  run_it.
Defined.

(** X11 on [links_page]: the relative link [/guide] is returned. *)
Lemma extract_links_complete_witness :
  "https://example.com/guide"
    ∈ ["https://example.com/guide"; "https://example.com/manual.pdf?download=1"].
Proof.
  apply (extract_links_complete links_page seed frame0 _ frame0
           {| scheme := "https"; netloc := "example.com"; path := "/";
              query := ""; fragment := "" |}
           "/guide" "https://example.com/guide").
  - run_it.
  - run_it.
  - vm_compute. by left.
  - run_it.
  - unfold kept. splits.
    + eexists. split; lazy; reflexivity.
    + cbn. set_solver.
    + intros ext Hin pre Heq.
      assert (endswith "https://example.com/guide" ext = true) as Hends.
      { apply endswith_iff. by exists pre. }
      repeat (apply elem_of_cons in Hin as [->|Hin]; [by vm_compute in Hends|]).
      by apply elem_of_nil in Hin.
Defined.

(** X14 on a five-character text in chunks of two tokens. *)
Lemma chunks_cover_witness :
  ∃ groups,
    _chunk_content char_encode char_decode 2 "abcde" = map char_decode groups
    ∧ concat groups = char_encode "abcde".
Proof. apply (chunks_cover char_encode char_decode 2 "abcde"). discriminate. Defined.

(** X15 on the same text: two full chunks and a last one. *)
Lemma chunks_within_size_witness :
  ∃ full final,
    _chunk_content char_encode char_decode 2 "abcde" = map char_decode (full ++ [final])
    ∧ concat full ++ final = char_encode "abcde"
    ∧ Forall (λ group, Z.of_nat (length group) = 2) full
    ∧ 1 ≤ Z.of_nat (length final) ≤ 2.
Proof.
  apply (chunks_within_size char_encode char_decode 2 "abcde"); [lia|discriminate|discriminate].
Defined.

(** X16 with a chunk size of zero: an empty chunk, then one per token. *)
Lemma chunks_without_size_witness :
  _chunk_content char_encode char_decode 0 "ab"
    = char_decode [] :: map (λ token, char_decode [token]) (char_encode "ab").
Proof.
  apply (chunks_without_size char_encode char_decode 0 "ab"); [lia|discriminate|discriminate].
Defined.

(** X17: five tokens in chunks of two make three chunks. *)
Lemma chunk_count_witness :
  Z.of_nat (length (_chunk_content char_encode char_decode 2 "abcde"))
    = (Z.of_nat (length (char_encode "abcde")) + 2 - 1) / 2.
Proof. apply (chunk_count char_encode char_decode 2 "abcde"); [lia|discriminate]. Defined.

(** X19 on a bare JSON object. *)
Lemma clean_json_plain_witness :
  _clean_json_response " {'qa_pairs': []} " = Returns (strip " {'qa_pairs': []} ").
Proof. apply clean_json_plain; reflexivity. Defined.

(** X21 on an answer in a fenced block. *)
Lemma clean_json_fenced_witness :
  _clean_json_response ("```json" +:+ LF +:+ "{'qa_pairs': []}" +:+ LF +:+ "```")
    = Returns (strip "{'qa_pairs': []}").
Proof. apply (clean_json_fenced "```json" "{'qa_pairs': []}" "```"); reflexivity. Defined.

(** X22 on two crawls of one page each. *)
Lemma create_markdown_app_witness :
  create_markdown ConversionConfig_default
    {| base_url := seed;
       pages := pages (crawl_of [guide_page]) ++ pages (crawl_of [page_of seed front_page]);
       error := None |}
  = create_markdown ConversionConfig_default (crawl_of [guide_page]) +:+ LF
    +:+ create_markdown ConversionConfig_default (crawl_of [page_of seed front_page]).
Proof.
  apply (create_markdown_app ConversionConfig_default seed None
           (crawl_of [guide_page]) (crawl_of [page_of seed front_page])); discriminate.
Defined.

(** X23 on the guide page. *)
Lemma create_markdown_sources_witness :
  occurs_in ("*Source: " +:+ url guide_page +:+ "*" +:+ LF)
    (create_markdown ConversionConfig_default (crawl_of [guide_page]))
  ∧ ∀ paragraph, paragraph ∈ paragraphs (content guide_page) →
      occurs_in (LF +:+ paragraph +:+ LF)
        (create_markdown ConversionConfig_default (crawl_of [guide_page])).
Proof.
  apply (create_markdown_sources ConversionConfig_default (crawl_of [guide_page]) guide_page).
  apply elem_of_cons. by left.
Defined.

